(** * SDL_sound: the Sun/NeXT .au decoder and the MP3 (dr_mp3) decoder

    A shallow embedding of [decoders/au.c] and [src/SDL_sound_mp3.c].

    Machine integers are [Z] with the C conversions written out, the scratch
    buffer is a list of bytes indexed from 0, and the byte streams and the
    dr_mp3 decompressor, which live outside the two files, are interfaces
    (type classes) with small concrete instances used to run the code. *)

From Stdlib Require Import Ascii String.
From stdpp Require Import base numbers list strings.

Local Open Scope Z_scope.

(** ** C integer conversions *)

Definition to_Uint32 (z : Z) : Z := z mod 2 ^ 32.
Definition to_Sint32 (z : Z) : Z := (z + 2 ^ 31) mod 2 ^ 32 - 2 ^ 31.
Definition to_Uint64 (z : Z) : Z := z mod 2 ^ 64.
Definition to_Uint8 (z : Z) : Z := z mod 2 ^ 8.

Definition INT_MAX : Z := 2 ^ 31 - 1.
Definition UINT32_MAX : Z := 2 ^ 32 - 1.

(** ** Sample flags *)

(** Modelled from the spec: the flag constants come from the public header
    [SDL_sound.h], which is not among the sources; the spec calls them
    independent boolean signals, so each is one bit of the flag word (the
    bits are those of the header: 0, 29, 30 and 31). *)
Definition SOUND_SAMPLEFLAG_NONE : Z := 0.
Definition SOUND_SAMPLEFLAG_CANSEEK : Z := 1.
Definition SOUND_SAMPLEFLAG_EOF : Z := Z.shiftl 1 29.
Definition SOUND_SAMPLEFLAG_ERROR : Z := Z.shiftl 1 30.
Definition SOUND_SAMPLEFLAG_EAGAIN : Z := Z.shiftl 1 31.

(** [flags & f] is nonzero. *)
Definition has_flag (flags f : Z) : bool := negb (Z.land flags f =? 0).

(** Every flag of [a] is a flag of [b]. *)
Definition flags_le (a b : Z) : Prop := Z.land a b = a.

Inductive audio_format : Type :=
  | AUDIO_S8
  | AUDIO_S16MSB
  | AUDIO_S16SYS
  | SDL_AUDIO_F32
  | AUDIO_unset.

(** [Sound_AudioInfo] is declared in [SDL_sound.h], which is not among the
    sources: [channels] is a [Uint8] and [rate] a [Uint32], so a decoder
    that stores a wider number in [channels] keeps its low eight bits. *)
Record Sound_AudioInfo : Type := mkAudioInfo {
  format : audio_format;
  channels : Z;
  rate : Z
}.

(** ** Byte buffers *)

(** What a read primitive does to the memory at [buf + off]: the bytes it
    delivers replace the ones that were there. *)
Definition write_at (buf : list Z) (off : nat) (data : list Z) : list Z :=
  take off buf ++ data ++ drop (off + length data) buf.

Definition le32 (b : list Z) : Z :=
  b !!! 0%nat + 256 * (b !!! 1%nat) + 65536 * (b !!! 2%nat) + 16777216 * (b !!! 3%nat).

Definition be32 (b : list Z) : Z :=
  16777216 * (b !!! 0%nat) + 65536 * (b !!! 1%nat) + 256 * (b !!! 2%nat) + b !!! 3%nat.

(** ** The SDL 1.2 stream used by the .au decoder

    [SDL_RWread(rw, ptr, 1, maxnum)] either fails (the C call returns -1) or
    delivers some bytes, never more than it was asked for. *)

Inductive rw_result : Type :=
  | RWerror
  | RWdata (bytes : list Z).

Definition rw_count (r : rw_result) : Z :=
  match r with
  | RWerror => -1
  | RWdata l => Z.of_nat (length l)
  end.

Definition rw_bytes (r : rw_result) : list Z :=
  match r with
  | RWerror => []
  | RWdata l => l
  end.

Class RWops (R : Type) : Type := {
  SDL_RWread : R → Z → rw_result * R;
  SDL_RWseek : R → Z → Z → Z * R;
  SDL_RWread_bound : ∀ rw n l rw',
    SDL_RWread rw n = (RWdata l, rw') → Z.of_nat (length l) ≤ Z.max 0 n;
  SDL_RWread_bytes : ∀ rw n l rw',
    SDL_RWread rw n = (RWdata l, rw') → Forall (λ b, 0 ≤ b < 256) l
}.

Definition SEEK_SET : Z := 0.
Definition SEEK_CUR : Z := 1.
Definition SEEK_END : Z := 2.

(** A stream over a byte string held in memory.  [m_chunk] is the most a
    single read delivers (short reads), [m_broken] makes every read fail. *)
Record mem_rw : Type := mkMem {
  m_data : list Z;
  m_pos : nat;
  m_chunk : nat;
  m_broken : bool
}.

Definition mem_read (m : mem_rw) (n : Z) : rw_result * mem_rw :=
  if m_broken m then (RWerror, m)
  else
    let l := take (Z.to_nat n `min` m_chunk m)
                  (drop (m_pos m) ((λ b, b mod 256) <$> m_data m)) in
    (RWdata l, mkMem (m_data m) (m_pos m + length l) (m_chunk m) (m_broken m)).

Definition mem_seek (m : mem_rw) (offset whence : Z) : Z * mem_rw :=
  let base :=
    if whence =? SEEK_SET then 0
    else if whence =? SEEK_CUR then Z.of_nat (m_pos m)
    else Z.of_nat (length (m_data m)) in
  let target := base + offset in
  if (0 <=? target) && (target <=? Z.of_nat (length (m_data m)))
  then (target, mkMem (m_data m) (Z.to_nat target) (m_chunk m) (m_broken m))
  else (-1, m).

#[global, refine] Instance mem_RWops : RWops mem_rw := {|
  SDL_RWread := mem_read;
  SDL_RWseek := mem_seek
|}.
Proof.
  - intros m n l m'. unfold mem_read. destruct (m_broken m); [discriminate|].
    intros [= <- _]. rewrite length_take. lia.
  - intros m n l m'. unfold mem_read. destruct (m_broken m); [discriminate|].
    intros [= <- _]. apply Forall_take, Forall_drop, Forall_fmap, Forall_true.
    intros b. simpl. apply Z.mod_pos_bound. lia.
Defined.

(** ** Case-insensitive comparison of the extension hint *)

Definition toupper (c : ascii) : nat :=
  let n := nat_of_ascii c in
  if ((97 <=? n) && (n <=? 122))%nat then (n - 32)%nat else n.

Fixpoint strcasecmp_chars (x y : string) : Z :=
  match x, y with
  | EmptyString, EmptyString => 0
  | EmptyString, String _ _ => -1
  | String _ _, EmptyString => 1
  | String a x', String b y' =>
      if (toupper b <? toupper a)%nat then 1
      else if (toupper a <? toupper b)%nat then -1
      else strcasecmp_chars x' y'
  end.

(** Modelled from the spec: [__Sound_strcasecmp] is defined in a file that
    is not among the sources; the spec says the extension hint is compared
    case-insensitively with "au".  A NULL pointer is [None]; the result is 0
    exactly when the two strings are equal up to ASCII case. *)
Definition __Sound_strcasecmp (x y : option string) : Z :=
  match x, y with
  | None, None => 0
  | None, Some _ => -1
  | Some _, None => 1
  | Some a, Some b => strcasecmp_chars a b
  end.

(** * The .au decoder *)

Module AU.

Definition HDR_SIZE : Z := 24.

Definition AU_ENC_ULAW_8 : Z := 1.
Definition AU_ENC_LINEAR_8 : Z := 2.
Definition AU_ENC_LINEAR_16 : Z := 3.

Definition AU_MAGIC : Z := 0x646E732E.

Record audec : Type := mkAudec {
  remaining : Z;
  encoding : Z
}.

(** The table that converts µ-law to signed 16-bit samples. *)
Definition ulaw_to_linear : list Z := [
    -32124;-31100;-30076;-29052;-28028;-27004;-25980;-24956;
    -23932;-22908;-21884;-20860;-19836;-18812;-17788;-16764;
    -15996;-15484;-14972;-14460;-13948;-13436;-12924;-12412;
    -11900;-11388;-10876;-10364; -9852; -9340; -8828; -8316;
     -7932; -7676; -7420; -7164; -6908; -6652; -6396; -6140;
     -5884; -5628; -5372; -5116; -4860; -4604; -4348; -4092;
     -3900; -3772; -3644; -3516; -3388; -3260; -3132; -3004;
     -2876; -2748; -2620; -2492; -2364; -2236; -2108; -1980;
     -1884; -1820; -1756; -1692; -1628; -1564; -1500; -1436;
     -1372; -1308; -1244; -1180; -1116; -1052;  -988;  -924;
      -876;  -844;  -812;  -780;  -748;  -716;  -684;  -652;
      -620;  -588;  -556;  -524;  -492;  -460;  -428;  -396;
      -372;  -356;  -340;  -324;  -308;  -292;  -276;  -260;
      -244;  -228;  -212;  -196;  -180;  -164;  -148;  -132;
      -120;  -112;  -104;   -96;   -88;   -80;   -72;   -64;
       -56;   -48;   -40;   -32;   -24;   -16;    -8;     0;
     32124; 31100; 30076; 29052; 28028; 27004; 25980; 24956;
     23932; 22908; 21884; 20860; 19836; 18812; 17788; 16764;
     15996; 15484; 14972; 14460; 13948; 13436; 12924; 12412;
     11900; 11388; 10876; 10364;  9852;  9340;  8828;  8316;
      7932;  7676;  7420;  7164;  6908;  6652;  6396;  6140;
      5884;  5628;  5372;  5116;  4860;  4604;  4348;  4092;
      3900;  3772;  3644;  3516;  3388;  3260;  3132;  3004;
      2876;  2748;  2620;  2492;  2364;  2236;  2108;  1980;
      1884;  1820;  1756;  1692;  1628;  1564;  1500;  1436;
      1372;  1308;  1244;  1180;  1116;  1052;   988;   924;
       876;   844;   812;   780;   748;   716;   684;   652;
       620;   588;   556;   524;   492;   460;   428;   396;
       372;   356;   340;   324;   308;   292;   276;   260;
       244;   228;   212;   196;   180;   164;   148;   132;
       120;   112;   104;    96;    88;    80;    72;    64;
        56;    48;    40;    32;    24;    16;     8;     0
  ].

(** [ulaw_to_linear[b]] *)
Definition ulaw_lookup (b : Z) : Z := ulaw_to_linear !!! Z.to_nat b.

(** The two bytes of a [Sint16] in the byte order of the host. *)
Definition Sint16_bytes (big_endian : bool) (v : Z) : list Z :=
  let u := v mod 2 ^ 16 in
  if big_endian then [u / 256; u mod 256] else [u mod 256; u / 256].

(** [dst[i] = v] for [Sint16 *dst = buffer]: bytes [2i] and [2i+1]. *)
Definition store_Sint16 (big_endian : bool) (buffer : list Z) (i : nat) (v : Z)
  : list Z :=
  match Sint16_bytes big_endian v with
  | [b0; b1] => <[(2 * i + 1)%nat := b1]> (<[(2 * i)%nat := b0]> buffer)
  | _ => buffer
  end.

(** Memory accesses of the expansion loop, by byte offset into the buffer,
    in program order. *)
Inductive access : Type :=
  | LoadByte (off : nat)
  | StoreByte (off : nat).

#[global] Instance access_eq_dec : EqDecision access.
Proof. solve_decision. Defined.

(** The loop [for (i = 0; i < ret; i++) dst[i] = ulaw_to_linear[buf[i]];]
    with [buf = buffer + off]; [count] iterations are left and [i] is the
    loop index.  The second component logs the accesses. *)
Fixpoint ulaw_loop (big_endian : bool) (count : nat) (i off : nat)
    (buffer : list Z) (log : list access) : list Z * list access :=
  match count with
  | O => (buffer, log)
  | S count' =>
      let b := buffer !!! (off + i)%nat in
      ulaw_loop big_endian count' (S i) off
        (store_Sint16 big_endian buffer i (ulaw_lookup b))
        (log ++ [LoadByte (off + i); StoreByte (2 * i); StoreByte (2 * i + 1)])
  end.

(** Expansion of a separate copy of the raw bytes: what the specification
    of the in-place loop is. *)
Definition ulaw_expand (big_endian : bool) (raw : list Z) : list Z :=
  flat_map (λ b, Sint16_bytes big_endian (ulaw_lookup b)) raw.

(** The accesses of [count] passes of the loop from index [i] on, in
    program order. *)
Definition ulaw_accesses (off i count : nat) : list access :=
  flat_map (λ j, [LoadByte (off + j); StoreByte (2 * j); StoreByte (2 * j + 1)])
           (seq i count).

(** Every occurrence of [b] in the log comes after an occurrence of [a]. *)
Fixpoint only_after (a b : access) (log : list access) : bool :=
  match log with
  | [] => true
  | x :: log' =>
      if decide (x = a) then true
      else if decide (x = b) then false
      else only_after a b log'
  end.

(** Every store of the log is to an offset below [limit]. *)
Definition stores_below (limit : nat) (log : list access) : bool :=
  forallb (λ a, match a with StoreByte o => (o <? limit)%nat | LoadByte _ => true end)
          log.

Section Decoder.

Context {R : Type} {RW : RWops R}.

(** The host byte order, which fixes the layout of [AUDIO_S16SYS] samples. *)
Variable big_endian : bool.

(** [Sound_Sample] with the fields of its [Sound_SampleInternal] that the
    decoder uses. *)
Record Sound_Sample : Type := mkSample {
  flags : Z;
  actual : Sound_AudioInfo;
  rw : R;
  buffer : list Z;
  buffer_size : Z;
  decoder_private : audec
}.

Definition set_flags (s : Sound_Sample) (f : Z) : Sound_Sample :=
  mkSample f (actual s) (rw s) (buffer s) (buffer_size s) (decoder_private s).
Definition set_actual (s : Sound_Sample) (a : Sound_AudioInfo) : Sound_Sample :=
  mkSample (flags s) a (rw s) (buffer s) (buffer_size s) (decoder_private s).
Definition set_rw (s : Sound_Sample) (r : R) : Sound_Sample :=
  mkSample (flags s) (actual s) r (buffer s) (buffer_size s) (decoder_private s).
Definition set_buffer (s : Sound_Sample) (b : list Z) : Sound_Sample :=
  mkSample (flags s) (actual s) (rw s) b (buffer_size s) (decoder_private s).
Definition set_dec (s : Sound_Sample) (d : audec) : Sound_Sample :=
  mkSample (flags s) (actual s) (rw s) (buffer s) (buffer_size s) d.

(** [for (i = HDR_SIZE; i < hsize; i++) SDL_RWread(rw, &c, 1, 1);] *)
Definition skip_header (hsize : Z) (r : R) : R :=
  Nat.iter (Z.to_nat (hsize - HDR_SIZE)) (λ r, (SDL_RWread r 1).2) r.

(** [AU_open].  [fresh] is what [malloc] returns: [None] for NULL, otherwise
    the indeterminate contents of the new [struct audec].  The result is the
    return value, the message given to [Sound_SetError] if any, and the
    sample.  [free] is not modelled. *)
Definition AU_open (fresh : option audec) (sample : Sound_Sample)
    (ext : option string) : Z * option string * Sound_Sample :=
  match fresh with
  | None => (0, Some "Out of memory"%string, sample)
  | Some dec =>
      let sample := set_dec sample dec in
      let '(res, rw1) := SDL_RWread (rw sample) HDR_SIZE in
      let sample := set_rw sample rw1 in
      let r := rw_count res in
      let hdr := rw_bytes res in
      if r <? HDR_SIZE then
        (0, Some "No .au file (bad header)"%string, sample)
      else if le32 (take 4 hdr) =? AU_MAGIC then
        let enc := to_Sint32 (be32 (take 4 (drop 12 hdr))) in
        let dec := mkAudec (remaining dec) enc in
        let sample := set_dec sample dec in
        let fmt :=
          if enc =? AU_ENC_ULAW_8 then Some AUDIO_S16SYS
          else if enc =? AU_ENC_LINEAR_8 then Some AUDIO_S8
          else if enc =? AU_ENC_LINEAR_16 then Some AUDIO_S16MSB
          else None in
        match fmt with
        | None => (0, Some "Unsupported .au encoding"%string, sample)
        | Some fmt =>
            let info :=
              mkAudioInfo fmt (to_Uint8 (be32 (take 4 (drop 20 hdr))))
                          (be32 (take 4 (drop 16 hdr))) in
            let dec := mkAudec (be32 (take 4 (drop 8 hdr))) enc in
            let hsize := to_Sint32 (be32 (take 4 (drop 4 hdr))) in
            let sample := set_rw (set_dec (set_actual sample info) dec)
                                 (skip_header hsize rw1) in
            (1, None, set_flags sample SOUND_SAMPLEFLAG_NONE)
        end
      else if __Sound_strcasecmp ext (Some "au"%string) =? 0 then
        let '(_, rw2) := SDL_RWseek rw1 (- HDR_SIZE) SEEK_CUR in
        let dec := mkAudec (to_Uint32 (-1)) AU_ENC_ULAW_8 in
        let info := mkAudioInfo AUDIO_S16SYS 1 8000 in
        let sample := set_rw (set_dec (set_actual sample info) dec) rw2 in
        (1, None, set_flags sample SOUND_SAMPLEFLAG_NONE)
      else
        (1, None, set_flags sample SOUND_SAMPLEFLAG_NONE)
  end.

(** Lines 257-268 of [AU_read]: the length asked of the stream and the
    offset of [buf] in the scratch buffer. *)
Definition AU_request (sample : Sound_Sample) : Z * Z :=
  let dec := decoder_private sample in
  let maxlen := to_Sint32 (buffer_size sample) in
  let buf := 0 in
  let '(maxlen, buf) :=
    if encoding dec =? AU_ENC_ULAW_8
    then (Z.shiftr maxlen 1, buf + Z.shiftr maxlen 1)
    else (maxlen, buf) in
  let maxlen :=
    if to_Uint32 maxlen >? remaining dec then to_Sint32 (remaining dec)
    else maxlen in
  (maxlen, buf).

(** [AU_read], with the accesses of the expansion loop as a third result. *)
Definition AU_read_log (sample : Sound_Sample)
  : Z * Sound_Sample * list access :=
  let dec := decoder_private sample in
  let '(maxlen, buf) := AU_request sample in
  let '(res, rw1) := SDL_RWread (rw sample) maxlen in
  let ret := rw_count res in
  let sample :=
    set_rw (set_buffer sample
              (write_at (buffer sample) (Z.to_nat buf) (rw_bytes res))) rw1 in
  if ret =? 0 then
    (to_Uint32 ret,
     set_flags sample (Z.lor (flags sample) SOUND_SAMPLEFLAG_EOF), [])
  else if ret =? -1 then
    (to_Uint32 ret,
     set_flags sample (Z.lor (flags sample) SOUND_SAMPLEFLAG_ERROR), [])
  else
    let dec := mkAudec (to_Uint32 (remaining dec - ret)) (encoding dec) in
    let sample := set_dec sample dec in
    let sample :=
      if ret <? maxlen
      then set_flags sample (Z.lor (flags sample) SOUND_SAMPLEFLAG_EAGAIN)
      else sample in
    if encoding dec =? AU_ENC_ULAW_8 then
      let '(buffer', log) :=
        ulaw_loop big_endian (Z.to_nat ret) 0 (Z.to_nat buf)
                  (buffer sample) [] in
      (to_Uint32 (to_Sint32 (Z.shiftl ret 1)), set_buffer sample buffer', log)
    else
      (to_Uint32 ret, sample, []).

Definition AU_read (sample : Sound_Sample) : Z * Sound_Sample :=
  (AU_read_log sample).1.

(** A sample as the session hands it to [AU_read]: the scratch buffer has
    [buffer_size] bytes, which is a size that fits an [int], and [remaining]
    is an [unsigned]. *)
Definition wf_sample (sample : Sound_Sample) : Prop :=
  0 ≤ buffer_size sample ≤ INT_MAX
  ∧ Z.of_nat (length (buffer sample)) = buffer_size sample
  ∧ 0 ≤ remaining (decoder_private sample) < 2 ^ 32.

(** The most one call reads whatever [remaining] is, and where in the
    scratch buffer the raw bytes go. *)
Definition AU_cap (sample : Sound_Sample) : Z :=
  if encoding (decoder_private sample) =? AU_ENC_ULAW_8
  then buffer_size sample / 2 else buffer_size sample.

Definition AU_offset (sample : Sound_Sample) : Z :=
  if encoding (decoder_private sample) =? AU_ENC_ULAW_8
  then buffer_size sample / 2 else 0.

(** The raw bytes the stream delivered to this call of [AU_read]. *)
Definition AU_raw (sample : Sound_Sample) : list Z :=
  rw_bytes (SDL_RWread (rw sample) (AU_request sample).1).1.

(** The sample after [k] calls of [AU_read]. *)
Fixpoint AU_reads (k : nat) (sample : Sound_Sample) : Sound_Sample :=
  match k with
  | O => sample
  | S k' => AU_reads k' (AU_read sample).2
  end.

End Decoder.

Arguments Sound_Sample R : clear implicits.
Arguments mkSample {R}.

(** ** Samples to run the decoder on *)

(** A sample that has not been opened yet, on a memory stream holding
    [data], with a scratch buffer of [capacity] bytes. *)
Definition closed_sample (data : list Z) (chunk : nat) (broken : bool)
    (capacity : nat) : Sound_Sample mem_rw :=
  mkSample SOUND_SAMPLEFLAG_NONE (mkAudioInfo AUDIO_unset 0 0)
           (mkMem data 0 chunk broken) (replicate capacity 0)
           (Z.of_nat capacity) (mkAudec 0 0).

(** An open sample, as [AU_open] leaves it. *)
Definition open_sample (data : list Z) (chunk : nat) (broken : bool)
    (capacity : nat) (remaining encoding : Z) : Sound_Sample mem_rw :=
  mkSample SOUND_SAMPLEFLAG_NONE (mkAudioInfo AUDIO_S8 1 8000)
           (mkMem data 0 chunk broken) (replicate capacity 0)
           (Z.of_nat capacity) (mkAudec remaining encoding).

(** A 24-byte header: magic, header size 24, then the three given fields,
    8000 Hz, one channel. *)
Definition au_header (data_size encoding : Z) : list Z :=
  [0x2E; 0x73; 0x6E; 0x64; 0; 0; 0; 24; 0; 0; 0; data_size;
   0; 0; 0; encoding; 0; 0; 0x1F; 0x40; 0; 0; 0; 1].

(** A headerless stream of 40 bytes opened with the hint "AU". *)
Definition legacy_sample : Sound_Sample mem_rw :=
  (AU_open (Some (mkAudec 0 0))
              (closed_sample (replicate 40 7) 40 false 16)
              (Some "AU"%string)).2.

(** A header that declares 10 bytes of 8-bit linear data on a stream that
    holds only 4 of them. *)
Definition truncated_sample : Sound_Sample mem_rw :=
  (AU_open (Some (mkAudec 0 0))
              (closed_sample (au_header 10 2 ++ [1; 2; 3; 4]) 28 false 16)
              (Some "au"%string)).2.

(** A µ-law sample with a buffer of 8 bytes and 4 raw bytes to read. *)
Definition ulaw_sample_full : Sound_Sample mem_rw :=
  open_sample [1; 2; 3; 4] 4 false 8 4 AU_ENC_ULAW_8.

(** A µ-law sample with a buffer of 8 bytes and 2 raw bytes to read. *)
Definition ulaw_sample_short : Sound_Sample mem_rw :=
  open_sample [10; 20] 2 false 8 2 AU_ENC_ULAW_8.

(** A sample on a stream whose reads fail. *)
Definition broken_sample : Sound_Sample mem_rw :=
  open_sample [1; 2; 3; 4] 4 true 16 10 AU_ENC_LINEAR_8.

End AU.

(** * The MP3 decoder *)

Module MP3.

(** ** The SDL3 stream behind the bridge

    [SDL_ReadIO(io, ptr, size)] returns how many bytes it stored at [ptr]:
    at most [size], and 0 when nothing more can be read. *)
Class IOStream (Strm : Type) : Type := {
  SDL_ReadIO : Strm → Z → list Z * Strm;
  SDL_SeekIO : Strm → Z → Z → Z * Strm;
  SDL_TellIO : Strm → Z;
  SDL_ReadIO_bound : ∀ io n l io',
    SDL_ReadIO io n = (l, io') → Z.of_nat (length l) ≤ Z.max 0 n
}.

(** [size_t] arithmetic, 64 bits wide. *)
Definition to_size_t (z : Z) : Z := to_Uint64 z.

(** One call of the stream's read primitive made by [mp3_read]: the number
    of bytes asked for and the number delivered. *)
Record io_call : Type := mkCall {
  asked : Z;
  delivered : Z
}.

Record bridge_result (Strm : Type) : Type := mkBridge {
  retval : Z;
  stored : list Z;
  stream_after : Strm;
  calls : list io_call
}.
Arguments mkBridge {Strm}.
Arguments retval {Strm}.
Arguments stored {Strm}.
Arguments stream_after {Strm}.
Arguments calls {Strm}.

Inductive drmp3_seek_origin : Type :=
  | DRMP3_SEEK_SET
  | DRMP3_SEEK_CUR
  | DRMP3_SEEK_END
  | DRMP3_SEEK_other.

Section Bridge.

Context {Strm : Type} {IO : IOStream Strm}.

(** The loop of [mp3_read].  [fuel] bounds the number of passes; [None] is
    a loop that has not finished within [fuel] passes.  [out] is what has
    been stored at [pBufferOut] so far ([ptr] is its end). *)
Fixpoint mp3_read_loop (fuel : nat) (io : Strm) (out : list Z)
    (bytesToRead rv : Z) (log : list io_call) : option (bridge_result Strm) :=
  if bytesToRead =? 0 then Some (mkBridge rv out io log)
  else
    match fuel with
    | O => None
    | S fuel' =>
        let '(chunk, io') := SDL_ReadIO io bytesToRead in
        let rc := Z.of_nat (length chunk) in
        let log := log ++ [mkCall bytesToRead rc] in
        if rc =? 0 then Some (mkBridge rv out io' log)
        else
          mp3_read_loop fuel' io' (out ++ chunk)
            (to_size_t (bytesToRead - rc)) (to_size_t (rv + rc)) log
    end.

(** [mp3_read(pUserData, pBufferOut, bytesToRead)]: every pass but the last
    takes at least one byte, so [bytesToRead + 1] passes are enough. *)
Definition mp3_read (io : Strm) (bytesToRead : Z) : option (bridge_result Strm) :=
  mp3_read_loop (S (Z.to_nat bytesToRead)) io [] bytesToRead 0 [].

Definition mp3_seek (io : Strm) (offset : Z) (origin : drmp3_seek_origin)
  : bool * Strm :=
  let whence :=
    match origin with
    | DRMP3_SEEK_SET => Some SEEK_SET
    | DRMP3_SEEK_CUR => Some SEEK_CUR
    | DRMP3_SEEK_END => Some SEEK_END
    | DRMP3_SEEK_other => None
    end in
  match whence with
  | None => (false, io)
  | Some w =>
      let '(r, io') := SDL_SeekIO io offset w in
      (negb (r =? -1), io')
  end.

Definition mp3_tell (io : Strm) : bool * Z :=
  let cursor := SDL_TellIO io in
  (negb (cursor =? -1), cursor).

End Bridge.

(** The calls the bridge is specified to make for a request of [n] bytes:
    none when nothing is asked; otherwise it asks for all that is still
    missing, stops when the stream delivers nothing, and goes on for the
    rest after any other delivery, short or not. *)
Fixpoint bridge_calls (n : Z) (log : list io_call) : Prop :=
  match log with
  | [] => n = 0
  | c :: log' =>
      asked c = n ∧ 0 < n ∧ 0 ≤ delivered c ≤ n
      ∧ if delivered c =? 0 then log' = []
        else bridge_calls (n - delivered c) log'
  end.

Definition total_delivered (log : list io_call) : Z :=
  foldr (λ c acc, delivered c + acc) 0 log.

(** What the bridge is specified to do with the stream, call by call:
    [bridge_reads io n out log io'] says that a request of [n] bytes on the
    stream [io] stores the bytes [out], makes the calls [log] of the read
    primitive and leaves the stream as [io'].  Nothing is read when nothing
    is asked; a call that delivers nothing ends the run; after any other
    delivery, short or not, the run goes on for the rest on the stream as
    that call left it. *)
Inductive bridge_reads {Strm : Type} {IO : IOStream Strm}
  : Strm → Z → list Z → list io_call → Strm → Prop :=
  | bridge_full (io : Strm) : bridge_reads io 0 [] [] io
  | bridge_dry (io : Strm) (n : Z) (io' : Strm) :
      n ≠ 0 →
      SDL_ReadIO io n = ([], io') →
      bridge_reads io n [] [mkCall n 0] io'
  | bridge_more (io : Strm) (n : Z) (chunk : list Z) (io' : Strm)
      (out : list Z) (log : list io_call) (io'' : Strm) :
      n ≠ 0 →
      SDL_ReadIO io n = (chunk, io') →
      chunk ≠ [] →
      bridge_reads io' (n - Z.of_nat (length chunk)) out log io'' →
      bridge_reads io n (chunk ++ out)
                   (mkCall n (Z.of_nat (length chunk)) :: log) io''.

(** ** The dr_mp3 decompressor, a black box

    A context of type [D] holds the decompressor state together with the
    stream it reads through the bridge.  [drmp3_init] probes the stream
    through the bridge and gives the stream back as the probe left it,
    with the context when the stream is accepted.
    [drmp3_read_pcm_frames_f32] returns the number of frames decoded and the
    bytes of the interleaved floats it stored, four per sample. *)
Class Drmp3 (Strm D : Type) : Type := {
  drmp3_init : Strm → option D * Strm;
  dr_channels : D → Z;
  dr_sampleRate : D → Z;
  drmp3_get_pcm_frame_count : D → Z * D;
  drmp3_read_pcm_frames_f32 : D → Z → Z * list Z * D;
  drmp3_seek_to_pcm_frame : D → Z → bool * D;
  dr_channels_range : ∀ d, 0 ≤ dr_channels d < 2 ^ 32;
  dr_sampleRate_range : ∀ d, 0 ≤ dr_sampleRate d < 2 ^ 32;
  drmp3_frame_count_range : ∀ d n d',
    drmp3_get_pcm_frame_count d = (n, d') → 0 ≤ n < 2 ^ 64;
  drmp3_read_bound : ∀ d n rc out d',
    drmp3_read_pcm_frames_f32 d n = (rc, out, d') →
    0 ≤ rc ≤ Z.max 0 n ∧ Z.of_nat (length out) = rc * dr_channels d * 4
}.

Section Decoder.

Context {Strm D : Type} {DR : Drmp3 Strm D}.

(** [MP3_seek] turns milliseconds into a frame index in single precision
    floating point; that conversion is a parameter here. *)
Variable ms_to_frame : Z → Z → Z.

Record Sound_Sample : Type := mkSample {
  flags : Z;
  actual : Sound_AudioInfo;
  rw : Strm;
  buffer : list Z;
  buffer_size : Z;
  total_time : Z;
  decoder_private : D
}.

Definition set_flags (s : Sound_Sample) (f : Z) : Sound_Sample :=
  mkSample f (actual s) (rw s) (buffer s) (buffer_size s) (total_time s)
           (decoder_private s).
Definition set_actual (s : Sound_Sample) (a : Sound_AudioInfo) : Sound_Sample :=
  mkSample (flags s) a (rw s) (buffer s) (buffer_size s) (total_time s)
           (decoder_private s).
Definition set_buffer (s : Sound_Sample) (b : list Z) : Sound_Sample :=
  mkSample (flags s) (actual s) (rw s) b (buffer_size s) (total_time s)
           (decoder_private s).
Definition set_rw (s : Sound_Sample) (r : Strm) : Sound_Sample :=
  mkSample (flags s) (actual s) r (buffer s) (buffer_size s) (total_time s)
           (decoder_private s).
Definition set_total_time (s : Sound_Sample) (t : Z) : Sound_Sample :=
  mkSample (flags s) (actual s) (rw s) (buffer s) (buffer_size s) t
           (decoder_private s).
Definition set_dec (s : Sound_Sample) (d : D) : Sound_Sample :=
  mkSample (flags s) (actual s) (rw s) (buffer s) (buffer_size s)
           (total_time s) d.

(** Lines 118-126 of [MP3_open]: [frames] is a [Uint64] and [rate] a
    [Uint32], so the products and quotients are unsigned 64-bit ones.  The
    field [total_time] is declared in [SDL_sound_internal.h], which is not
    among the sources; the spec says it is signed, and it is 32 bits wide. *)
Definition MP3_total_time (frames rate : Z) : Z :=
  if frames =? 0 then -1
  else
    let total_time := to_Sint32 (to_Uint64 (frames / rate * 1000)) in
    to_Sint32
      (to_Uint64 (to_Uint64 total_time
                  + to_Uint64 (frames mod rate * 1000) / rate)).

(** [MP3_open].  [alloc] tells whether [SDL_calloc] succeeded. *)
Definition MP3_open (alloc : bool) (sample : Sound_Sample)
    (ext : option string) : Z * option string * Sound_Sample :=
  if negb alloc then (0, Some "Out of memory"%string, sample)
  else
    let '(init, io) := drmp3_init (rw sample) in
    let sample := set_rw sample io in
    match init with
    | None =>
        if has_flag (flags sample) SOUND_SAMPLEFLAG_ERROR
        then (0, Some "I/O error"%string, sample)
        else (0, Some "MP3: Not an MPEG-1 layer 1-3 stream."%string, sample)
    | Some dr =>
        let sample := set_flags sample SOUND_SAMPLEFLAG_CANSEEK in
        let sample :=
          set_actual sample
            (mkAudioInfo SDL_AUDIO_F32 (to_Uint8 (dr_channels dr))
                         (dr_sampleRate dr)) in
        let '(frames, dr) := drmp3_get_pcm_frame_count dr in
        let rate := to_Uint32 (dr_sampleRate dr) in
        let sample := set_total_time sample (MP3_total_time frames rate) in
        (1, None, set_dec sample dr)
    end.

(** [frames_to_read] of [MP3_read]. *)
Definition MP3_frames_to_read (sample : Sound_Sample) : Z :=
  let channels := to_Sint32 (channels (actual sample)) in
  to_Uint64 (to_Uint32 (buffer_size sample) / to_Uint32 channels) / 4.

Definition MP3_read (sample : Sound_Sample) : Z * Sound_Sample :=
  let channels := to_Sint32 (channels (actual sample)) in
  let dr := decoder_private sample in
  let frames_to_read := MP3_frames_to_read sample in
  let '(rc, out, dr') := drmp3_read_pcm_frames_f32 dr frames_to_read in
  let sample := set_dec (set_buffer sample (write_at (buffer sample) 0 out)) dr' in
  let sample :=
    if rc <? frames_to_read
    then set_flags sample (Z.lor (flags sample) SOUND_SAMPLEFLAG_EOF)
    else sample in
  (to_Uint32 (to_Uint64 (to_Uint64 (rc * to_Uint64 channels) * 4)), sample).

Definition MP3_rewind (sample : Sound_Sample) : Z * Sound_Sample :=
  let dr := decoder_private sample in
  let '(ok, dr') := drmp3_seek_to_pcm_frame dr 0 in
  (if ok then 1 else 0, set_dec sample dr').

Definition MP3_seek (sample : Sound_Sample) (ms : Z) : Z * Sound_Sample :=
  let dr := decoder_private sample in
  let frame_offset := ms_to_frame (rate (actual sample)) ms in
  let '(ok, dr') := drmp3_seek_to_pcm_frame dr frame_offset in
  (if ok then 1 else 0, set_dec sample dr').

End Decoder.

Arguments Sound_Sample Strm D : clear implicits.
Arguments mkSample {Strm D}.

(** ** A stream and a decompressor to run the decoder on *)

#[global, refine] Instance mem_IOStream : IOStream mem_rw := {|
  SDL_ReadIO := λ m n, let '(r, m') := mem_read m n in (rw_bytes r, m');
  SDL_SeekIO := mem_seek;
  SDL_TellIO := λ m, Z.of_nat (m_pos m)
|}.
Proof.
  intros m n l m'. unfold mem_read. destruct (m_broken m).
  - intros [= <- _]. simpl. lia.
  - intros [= <- _]. simpl. rewrite length_take. lia.
Defined.

(** A stand-in for dr_mp3 that decodes silence.  Its streams start with a
    ten-byte header: the byte 255, the channel count, and the sample rate
    and total frame count as little-endian 32-bit numbers. *)
Record toy_mp3 : Type := mkToy {
  t_channels : N;
  t_rate : N;
  t_total : N;
  t_pos : N
}.

Definition toy_init (io : mem_rw) : option toy_mp3 * mem_rw :=
  match mp3_read io 10 with
  | Some r =>
      let h := stored r in
      (if (retval r =? 10) && (h !!! 0%nat =? 255)
       then Some (mkToy (Z.to_N (h !!! 1%nat))
                        (Z.to_N (le32 (take 4 (drop 2 h))))
                        (Z.to_N (le32 (take 4 (drop 6 h)))) 0)
       else None,
       stream_after r)
  | None => (None, io)
  end.

Definition toy_read (d : toy_mp3) (n : Z) : Z * list Z * toy_mp3 :=
  let rc := (Z.to_N n `min` (t_total d - t_pos d))%N in
  (Z.of_N rc,
   replicate (Z.to_nat (Z.of_N rc * (Z.of_N (t_channels d) mod 2 ^ 32) * 4)) 0,
   mkToy (t_channels d) (t_rate d) (t_total d) (t_pos d + rc)).

Definition toy_seek (d : toy_mp3) (frame : Z) : bool * toy_mp3 :=
  if (0 <=? frame) && (frame <=? Z.of_N (t_total d))
  then (true, mkToy (t_channels d) (t_rate d) (t_total d) (Z.to_N frame))
  else (false, d).

#[global, refine] Instance toy_Drmp3 : Drmp3 mem_rw toy_mp3 := {|
  drmp3_init := toy_init;
  dr_channels := λ d, Z.of_N (t_channels d) mod 2 ^ 32;
  dr_sampleRate := λ d, Z.of_N (t_rate d) mod 2 ^ 32;
  drmp3_get_pcm_frame_count := λ d, (Z.of_N (t_total d) mod 2 ^ 64, d);
  drmp3_read_pcm_frames_f32 := toy_read;
  drmp3_seek_to_pcm_frame := toy_seek
|}.
Proof.
  - intros d. apply Z.mod_pos_bound. lia.
  - intros d. apply Z.mod_pos_bound. lia.
  - intros d n d' [= <- _]. apply Z.mod_pos_bound. lia.
  - intros d n rc out d'. unfold toy_read. intros [= <- <- _].
    rewrite length_replicate.
    pose proof (Z.mod_pos_bound (Z.of_N (t_channels d)) (2 ^ 32)).
    split; [lia|]. rewrite Z2Nat.id; [reflexivity|]. nia.
Defined.

(** A toy stream: one channel, 44100 Hz, [frames] frames in all. *)
Definition toy_stream (frames : Z) : mem_rw :=
  mkMem ([255; 1; 68; 172; 0; 0]
         ++ [frames mod 256; frames / 256 mod 256;
             frames / 65536 mod 256; frames / 16777216 mod 256])
        0 3 false.

(** A toy stream of 2147484000 frames at 1000 Hz, one channel: a little
    more than 2^31 milliseconds of sound. *)
Definition long_stream : mem_rw :=
  mkMem ([255; 1; 232; 3; 0; 0]
         ++ [2147484000 mod 256; 2147484000 / 256 mod 256;
             2147484000 / 65536 mod 256; 2147484000 / 16777216 mod 256])
        0 10 false.

Definition toy_sample (frames : Z) (capacity : nat)
  : Sound_Sample mem_rw toy_mp3 :=
  mkSample SOUND_SAMPLEFLAG_NONE (mkAudioInfo AUDIO_unset 0 0)
           (toy_stream frames) (replicate capacity 0) (Z.of_nat capacity) 0
           (mkToy 0 0 0 0).

End MP3.

(** * The rest of the two files *)

(** [AU_init] and [MP3_init] always succeed; [AU_quit], [MP3_quit] do
    nothing, and the two [close] functions only free memory, which is not
    modelled. *)
Definition AU_init : Z := 1.
Definition MP3_init : bool := true.

(** [struct au_file_hdr], with the fields as numbers. *)
Record au_file_hdr : Type := mkHdr {
  magic : Z;
  hdr_size : Z;
  data_size : Z;
  hdr_encoding : Z;
  sample_rate : Z;
  hdr_channels : Z
}.

(** The four bytes of a 32-bit number, most significant first. *)
Definition be32_bytes (v : Z) : list Z :=
  [v / 16777216 mod 256; v / 65536 mod 256; v / 256 mod 256; v mod 256].

(** The four bytes of a 32-bit number, least significant first. *)
Definition le32_bytes (v : Z) : list Z :=
  [v mod 256; v / 256 mod 256; v / 65536 mod 256; v / 16777216 mod 256].

(** The 24 bytes of a header on the stream, as [AU_open] takes them apart:
    the magic least significant byte first, the other fields big-endian. *)
Definition au_hdr_bytes (h : au_file_hdr) : list Z :=
  le32_bytes (magic h)
  ++ be32_bytes (hdr_size h) ++ be32_bytes (data_size h)
  ++ be32_bytes (hdr_encoding h) ++ be32_bytes (sample_rate h)
  ++ be32_bytes (hdr_channels h).

(** The [switch] of [AU_open]: the output format of a supported encoding. *)
Definition AU_format (enc : Z) : option audio_format :=
  if enc =? AU.AU_ENC_ULAW_8 then Some AUDIO_S16SYS
  else if enc =? AU.AU_ENC_LINEAR_8 then Some AUDIO_S8
  else if enc =? AU.AU_ENC_LINEAR_16 then Some AUDIO_S16MSB
  else None.

(** The raw bytes the stream delivered to the first [k] calls of [AU_read]
    in all. *)
Fixpoint AU_consumed {R : Type} {RW : RWops R} (big_endian : bool) (k : nat)
    (sample : AU.Sound_Sample R) : Z :=
  match k with
  | O => 0
  | S k' =>
      Z.of_nat (length (AU.AU_raw sample))
      + AU_consumed big_endian k' (AU.AU_read big_endian sample).2
  end.

(** The raw bytes the stream delivered to the first [k] calls of [AU_read],
    in order. *)
Fixpoint AU_raws {R : Type} {RW : RWops R} (big_endian : bool) (k : nat)
    (sample : AU.Sound_Sample R) : list Z :=
  match k with
  | O => []
  | S k' =>
      AU.AU_raw sample ++ AU_raws big_endian k' (AU.AU_read big_endian sample).2
  end.

(** The flag one call of [AU_read] adds, given what the stream answered to
    a request of [req] bytes. *)
Definition AU_outcome_flag (req : Z) (res : rw_result) : Z :=
  match res with
  | RWerror => SOUND_SAMPLEFLAG_ERROR
  | RWdata l =>
      if Z.of_nat (length l) =? 0 then SOUND_SAMPLEFLAG_EOF
      else if Z.of_nat (length l) <? req then SOUND_SAMPLEFLAG_EAGAIN
      else SOUND_SAMPLEFLAG_NONE
  end.

(** The G.711 expansion of a µ-law byte, which the comment on
    [ulaw_to_linear] says the table holds: the byte is complemented, bit 7
    is the sign, bits 4 to 6 the exponent and bits 0 to 3 the mantissa. *)
Definition mulaw_expand (b : Z) : Z :=
  let u := Z.lxor b 255 in
  let exponent := Z.shiftr (Z.land u 112) 4 in
  let mantissa := Z.land u 15 in
  let magnitude := Z.shiftl (Z.shiftl mantissa 3 + 132) exponent - 132 in
  if Z.land u 128 =? 0 then magnitude else - magnitude.

(** ** Streams that behave as sequential files

    [rest] gives the bytes still to come.  Every read succeeds and delivers
    a prefix of them, of any length up to the request, and a nonempty one if
    some bytes are asked for and some are left. *)
Definition sequential_rw {R : Type} {RW : RWops R} (rest : R → list Z) : Prop :=
  ∀ rw n, ∃ l rw',
    SDL_RWread rw n = (RWdata l, rw')
    ∧ l = take (length l) (rest rw)
    ∧ rest rw' = drop (length l) (rest rw)
    ∧ (0 < n → rest rw ≠ [] → l ≠ []).

Definition sequential_io {Strm : Type} {IO : MP3.IOStream Strm}
    (rest : Strm → list Z) : Prop :=
  ∀ io n, ∃ l io',
    MP3.SDL_ReadIO io n = (l, io')
    ∧ l = take (length l) (rest io)
    ∧ rest io' = drop (length l) (rest io)
    ∧ (0 < n → rest io ≠ [] → l ≠ []).

(** A sample whose stream still holds the bytes [remaining] counts and
    whose buffer is large enough to read into. *)
Definition AU_complete_on {R : Type} {RW : RWops R} (rest : R → list Z)
    (s : AU.Sound_Sample R) : Prop :=
  AU.wf_sample s ∧ 0 < AU.AU_cap s
  ∧ AU.remaining (AU.decoder_private s) ≤ Z.of_nat (length (rest (AU.rw s))).

(** A file that cannot seek and delivers at most [f_chunk + 1] bytes to a
    read. *)
Record file_stream : Type := mkFile {
  f_rest : list Z;
  f_chunk : nat
}.

Definition file_rest (f : file_stream) : list Z :=
  (λ b, b mod 256) <$> f_rest f.

Definition file_read (f : file_stream) (n : Z) : list Z * file_stream :=
  let l := take (Z.to_nat n `min` S (f_chunk f)) (file_rest f) in
  (l, mkFile (drop (length l) (f_rest f)) (f_chunk f)).

#[global, refine] Instance file_RWops : RWops file_stream := {|
  SDL_RWread := λ f n, let '(l, f') := file_read f n in (RWdata l, f');
  SDL_RWseek := λ f _ _, (-1, f)
|}.
Proof.
  - intros f n l f'. unfold file_read. intros [= <- _].
    rewrite length_take. lia.
  - intros f n l f'. unfold file_read, file_rest. intros [= <- _].
    apply Forall_take, Forall_fmap, Forall_true.
    intros b. simpl. apply Z.mod_pos_bound. lia.
Defined.

#[global, refine] Instance file_IOStream : MP3.IOStream file_stream := {|
  MP3.SDL_ReadIO := file_read;
  MP3.SDL_SeekIO := λ f _ _, (-1, f);
  MP3.SDL_TellIO := λ _, -1
|}.
Proof.
  intros f n l f'. unfold file_read. intros [= <- _].
  rewrite length_take. lia.
Defined.

(** A sample on a file, not opened yet. *)
Definition file_sample (bytes : list Z) (chunk capacity : nat)
  : AU.Sound_Sample file_stream :=
  AU.mkSample SOUND_SAMPLEFLAG_NONE (mkAudioInfo AUDIO_unset 0 0)
              (mkFile bytes chunk) (replicate capacity 0) (Z.of_nat capacity)
              (AU.mkAudec 0 0).

(** A header of 28 bytes for 6 bytes of 16-bit linear data, 22050 Hz,
    stereo, followed by four more header bytes and the data. *)
Definition hdr_linear16 : au_file_hdr := mkHdr AU.AU_MAGIC 28 6 3 22050 2.

Definition file_linear16 : list Z :=
  au_hdr_bytes hdr_linear16 ++ [0; 0; 0; 0] ++ [1; 2; 3; 4; 5; 6].

(** The sample after [AU_open] on that file, with a scratch buffer of four
    bytes. *)
Definition linear16_sample : AU.Sound_Sample file_stream :=
  (AU.AU_open (Some (AU.mkAudec 0 0)) (file_sample file_linear16 23 4)
              None).2.

(** A header that declares the encoding 27, 8-bit A-law. *)
Definition hdr_alaw : au_file_hdr := mkHdr AU.AU_MAGIC 24 6 27 8000 1.

(** Linear 8-bit samples whose [remaining] is 0. *)
Definition exhausted_sample : AU.Sound_Sample mem_rw :=
  AU.open_sample [1; 2; 3; 4] 4 false 16 0 AU.AU_ENC_LINEAR_8.

(** * Properties *)

(** ** Integer conversions and buffers *)

Lemma to_Uint32_id z : 0 ≤ z < 2 ^ 32 → to_Uint32 z = z.
Proof. intros. unfold to_Uint32. apply Z.mod_small. lia. Qed.

Lemma to_Sint32_id z : - 2 ^ 31 ≤ z < 2 ^ 31 → to_Sint32 z = z.
Proof. intros. unfold to_Sint32. rewrite Z.mod_small; lia. Qed.

Lemma to_Uint64_id z : 0 ≤ z < 2 ^ 64 → to_Uint64 z = z.
Proof. intros. unfold to_Uint64. apply Z.mod_small. lia. Qed.

Lemma flags_le_lor a f : flags_le a (Z.lor a f).
Proof.
  unfold flags_le. apply Z.bits_inj'. intros n Hn.
  rewrite Z.land_spec, Z.lor_spec. destruct (Z.testbit a n); reflexivity.
Qed.

Lemma has_flag_lor_other a f g :
  Z.land f g = 0 → has_flag (Z.lor a f) g = has_flag a g.
Proof.
  intros Hfg. unfold has_flag.
  rewrite Z.land_lor_distr_l, Hfg, Z.lor_0_r. reflexivity.
Qed.

Lemma has_flag_lor_self a f : f ≠ 0 → has_flag (Z.lor a f) f = true.
Proof.
  intros Hf. unfold has_flag.
  replace (Z.land (Z.lor a f) f) with f.
  - apply negb_true_iff, Z.eqb_neq, Hf.
  - apply Z.bits_inj'. intros n _. rewrite Z.land_spec, Z.lor_spec.
    destruct (Z.testbit a n), (Z.testbit f n); reflexivity.
Qed.

Lemma flags_le_refl a : flags_le a a.
Proof. unfold flags_le. apply Z.land_diag. Qed.

Lemma length_write_at buf off data :
  (off + length data ≤ length buf)%nat →
  length (write_at buf off data) = length buf.
Proof.
  intros. unfold write_at.
  rewrite !length_app, length_take, length_drop. lia.
Qed.

Lemma write_at_nil buf off : write_at buf off [] = buf.
Proof.
  unfold write_at. simpl. rewrite Nat.add_0_r. apply take_drop.
Qed.

Lemma lookup_write_at buf off data j :
  (off ≤ length buf)%nat → (j < length data)%nat →
  write_at buf off data !! (off + j)%nat = data !! j.
Proof.
  intros Hoff Hj. unfold write_at.
  rewrite lookup_app_r; rewrite length_take; [|lia].
  replace (off + j - off `min` length buf)%nat with j by lia.
  apply lookup_app_l. lia.
Qed.

(** ** The in-place expansion loop *)

Lemma length_Sint16_bytes be v : length (AU.Sint16_bytes be v) = 2%nat.
Proof. unfold AU.Sint16_bytes. destruct be; reflexivity. Qed.

Lemma length_ulaw_expand be raw :
  length (AU.ulaw_expand be raw) = (2 * length raw)%nat.
Proof.
  induction raw as [|b raw IH]; [reflexivity|].
  unfold AU.ulaw_expand in *. simpl. rewrite length_app, IH, length_Sint16_bytes.
  lia.
Qed.

Lemma store_Sint16_app be front x y rest i v :
  length front = (2 * i)%nat →
  AU.store_Sint16 be (front ++ x :: y :: rest) i v
  = front ++ AU.Sint16_bytes be v ++ rest.
Proof.
  intros Hlen. unfold AU.store_Sint16.
  assert (∃ b0 b1, AU.Sint16_bytes be v = [b0; b1]) as (b0 & b1 & ->).
  { unfold AU.Sint16_bytes. destruct be; eauto. }
  rewrite <- Hlen.
  replace (length front) with (length front + 0)%nat at 2 by lia.
  rewrite insert_app_r. simpl.
  replace (length front + 1)%nat with (length front + 1)%nat by lia.
  rewrite insert_app_r. reflexivity.
Qed.

Lemma ulaw_loop_spec be raw off buffer0 :
  (length raw ≤ off)%nat →
  (off + length raw ≤ length buffer0)%nat →
  (∀ j, (j < length raw)%nat → buffer0 !! (off + j)%nat = raw !! j) →
  ∀ count i log,
    (i + count = length raw)%nat →
    AU.ulaw_loop be count i off
      (AU.ulaw_expand be (take i raw) ++ drop (2 * i) buffer0) log
    = (AU.ulaw_expand be raw ++ drop (2 * length raw) buffer0,
       log ++ AU.ulaw_accesses off i count).
Proof.
  intros Hoff Hlen Hraw count.
  induction count as [|count IH]; intros i log Hi.
  - simpl. replace i with (length raw) by lia.
    rewrite take_ge by lia. unfold AU.ulaw_accesses. simpl.
    rewrite app_nil_r. reflexivity.
  - cbn [AU.ulaw_loop].
    assert (Hi' : (i < length raw)%nat) by lia.
    destruct (lookup_lt_is_Some_2 raw i Hi') as [b Hb].
    assert (Hlook : (AU.ulaw_expand be (take i raw) ++ drop (2 * i) buffer0)
                      !!! (off + i)%nat = b).
    { apply list_lookup_total_correct.
      rewrite lookup_app_r; rewrite length_ulaw_expand, length_take; [|lia].
      rewrite lookup_drop.
      replace (2 * i + (off + i - 2 * (i `min` length raw)))%nat
        with (off + i)%nat by lia.
      rewrite Hraw by lia. exact Hb. }
    rewrite Hlook.
    destruct (drop (2 * i) buffer0) as [|x [|y rest]] eqn:Hdrop.
    { apply (f_equal length) in Hdrop. rewrite length_drop in Hdrop.
      simpl in Hdrop. lia. }
    { apply (f_equal length) in Hdrop. rewrite length_drop in Hdrop.
      simpl in Hdrop. lia. }
    rewrite store_Sint16_app
      by (rewrite length_ulaw_expand, length_take; lia).
    assert (Hrest : rest = drop (2 * S i) buffer0).
    { replace (2 * S i)%nat with (2 * i + 2)%nat by lia.
      rewrite <- drop_drop, Hdrop. reflexivity. }
    rewrite Hrest.
    replace (AU.ulaw_expand be (take i raw)
             ++ AU.Sint16_bytes be (AU.ulaw_lookup b) ++ drop (2 * S i) buffer0)
      with (AU.ulaw_expand be (take (S i) raw) ++ drop (2 * S i) buffer0).
    2:{ rewrite (take_S_r raw i b Hb). unfold AU.ulaw_expand.
        rewrite flat_map_app. simpl. rewrite app_nil_r, <- app_assoc.
        reflexivity. }
    rewrite IH by lia. f_equal.
    rewrite <- app_assoc. reflexivity.
Qed.

Lemma ulaw_accesses_S off start count :
  AU.ulaw_accesses off start (S count)
  = AU.LoadByte (off + start) :: AU.StoreByte (2 * start) :: AU.StoreByte (2 * start + 1)
      :: AU.ulaw_accesses off (S start) count.
Proof. reflexivity. Qed.

Lemma only_after_accesses off i count :
  ∀ start, (start ≤ i < start + count)%nat →
    AU.only_after (AU.LoadByte (off + i)) (AU.StoreByte (2 * i))
                  (AU.ulaw_accesses off start count) = true
    ∧ AU.only_after (AU.LoadByte (off + i)) (AU.StoreByte (2 * i + 1))
                    (AU.ulaw_accesses off start count) = true.
Proof.
  induction count as [|count IH]; intros start Hi; [lia|].
  rewrite ulaw_accesses_S. cbn [AU.only_after].
  destruct (decide (start = i)) as [->|Hne].
  - rewrite !decide_True by reflexivity. auto.
  - rewrite !(decide_False (P := AU.LoadByte (off + start) = AU.LoadByte (off + i)))
      by (intros [= E]; lia).
    rewrite !(decide_False (P := AU.LoadByte (off + start) = AU.StoreByte _))
      by discriminate.
    rewrite !(decide_False (P := AU.StoreByte _ = AU.LoadByte _)) by discriminate.
    rewrite !(decide_False (P := AU.StoreByte (2 * start) = AU.StoreByte _))
      by (intros [= E]; lia).
    rewrite !(decide_False (P := AU.StoreByte (2 * start + 1) = AU.StoreByte _))
      by (intros [= E]; lia).
    apply IH. lia.
Qed.

Lemma ulaw_expand_sample be l rest i b :
  l !! i = Some b →
  take 2 (drop (2 * i) (AU.ulaw_expand be l ++ rest))
  = AU.Sint16_bytes be (AU.ulaw_lookup b).
Proof.
  revert i. induction l as [|b0 l IH]; intros i Hi; [discriminate|].
  assert (∃ x y, AU.Sint16_bytes be (AU.ulaw_lookup b0) = [x; y])
    as (x & y & Hxy).
  { unfold AU.Sint16_bytes. destruct be; eauto. }
  unfold AU.ulaw_expand in *. cbn [flat_map]. rewrite Hxy.
  destruct i as [|i].
  - injection Hi as <-. rewrite Hxy. reflexivity.
  - replace (2 * S i)%nat with (S (S (2 * i))) by lia.
    cbn [app drop]. apply IH. exact Hi.
Qed.

Lemma ulaw_lookup_in_table b :
  0 ≤ b < 256 →
  AU.ulaw_to_linear !! Z.to_nat b = Some (AU.ulaw_lookup b)
  ∧ -32768 ≤ AU.ulaw_lookup b ≤ 32767.
Proof.
  intros Hb.
  assert (Hlen : length AU.ulaw_to_linear = 256%nat) by reflexivity.
  destruct (lookup_lt_is_Some_2 AU.ulaw_to_linear (Z.to_nat b)) as [v Hv];
    [lia|].
  unfold AU.ulaw_lookup. rewrite (list_lookup_total_correct _ _ _ Hv).
  split; [exact Hv|].
  assert (Hall : forallb (λ v, (-32768 <=? v) && (v <=? 32767))
                         AU.ulaw_to_linear = true) by (vm_compute; reflexivity).
  rewrite forallb_forall in Hall.
  specialize (Hall v). rewrite <- list_elem_of_In in Hall.
  specialize (Hall (list_elem_of_lookup_2 _ _ _ Hv)). lia.
Qed.

(** ** One call of [AU_read] *)

Section AU_read_facts.

Context {R : Type} {RW : RWops R}.
Variable big_endian : bool.

Lemma AU_request_eq (s : AU.Sound_Sample R) :
  AU.wf_sample s →
  AU.AU_request s
  = (Z.min (AU.AU_cap s) (AU.remaining (AU.decoder_private s)), AU.AU_offset s).
Proof.
  intros (Hsize & _ & Hrem). unfold AU.AU_request, AU.AU_cap, AU.AU_offset.
  unfold INT_MAX in Hsize.
  rewrite (to_Sint32_id (AU.buffer_size s)) by lia.
  rewrite Z.shiftr_div_pow2 by lia. change (2 ^ 1) with 2.
  assert (0 ≤ AU.buffer_size s / 2 ≤ AU.buffer_size s).
  { split; [apply Z.div_pos; lia|]. apply Z.div_le_upper_bound; lia. }
  destruct (AU.encoding (AU.decoder_private s) =? AU.AU_ENC_ULAW_8).
  - rewrite to_Uint32_id by lia.
    destruct (Z.gtb_spec (AU.buffer_size s / 2)
                (AU.remaining (AU.decoder_private s))).
    + rewrite to_Sint32_id by lia. rewrite Z.min_r by lia. reflexivity.
    + rewrite Z.min_l by lia. reflexivity.
  - rewrite to_Uint32_id by lia.
    destruct (Z.gtb_spec (AU.buffer_size s)
                (AU.remaining (AU.decoder_private s))).
    + rewrite to_Sint32_id by lia. rewrite Z.min_r by lia. reflexivity.
    + rewrite Z.min_l by lia. reflexivity.
Qed.

Lemma AU_cap_bounds (s : AU.Sound_Sample R) :
  AU.wf_sample s →
  0 ≤ AU.AU_cap s ∧ AU.AU_offset s + AU.AU_cap s ≤ AU.buffer_size s
  ∧ 0 ≤ AU.AU_offset s.
Proof.
  intros (Hsize & _ & _). unfold AU.AU_cap, AU.AU_offset.
  assert (0 ≤ AU.buffer_size s / 2) by (apply Z.div_pos; lia).
  pose proof (Z.mul_div_le (AU.buffer_size s) 2).
  destruct (AU.encoding (AU.decoder_private s) =? AU.AU_ENC_ULAW_8); lia.
Qed.

(** What [AU_read] does when the stream delivers the bytes [l]. *)
Lemma AU_read_log_data (s : AU.Sound_Sample R) l rw' :
  AU.wf_sample s →
  SDL_RWread (AU.rw s) (AU.AU_request s).1 = (RWdata l, rw') →
  let dec := AU.decoder_private s in
  let n := Z.of_nat (length l) in
  let req := Z.min (AU.AU_cap s) (AU.remaining dec) in
  let off := Z.to_nat (AU.AU_offset s) in
  let raw_buffer := write_at (AU.buffer s) off l in
  let s0 := AU.set_rw (AU.set_buffer s raw_buffer) rw' in
  n ≤ req ∧
  AU.AU_read_log big_endian s =
    if n =? 0 then
      (0, AU.set_flags s0 (Z.lor (AU.flags s) SOUND_SAMPLEFLAG_EOF), [])
    else
      let s1 := AU.set_dec s0 (AU.mkAudec (AU.remaining dec - n) (AU.encoding dec)) in
      let s2 :=
        if n <? req
        then AU.set_flags s1 (Z.lor (AU.flags s) SOUND_SAMPLEFLAG_EAGAIN)
        else s1 in
      if AU.encoding dec =? AU.AU_ENC_ULAW_8 then
        (2 * n,
         AU.set_buffer s2
           (AU.ulaw_expand big_endian l ++ drop (2 * length l) raw_buffer),
         AU.ulaw_accesses off 0 (length l))
      else (n, s2, []).
Proof.
  intros Hwf Hread. pose proof (AU_cap_bounds s Hwf) as (Hcap0 & Hcap & Hoff0).
  pose proof Hwf as (Hsize & Hlen & Hrem). unfold INT_MAX in Hsize.
  cbv zeta. unfold AU.AU_read_log.
  rewrite (AU_request_eq s Hwf) in Hread |- *. cbn [fst snd] in Hread.
  cbv beta iota. rewrite Hread. cbn [rw_count rw_bytes].
  pose proof (SDL_RWread_bound _ _ _ _ Hread) as Hn.
  set (n := Z.of_nat (length l)) in *.
  set (req := Z.min (AU.AU_cap s) (AU.remaining (AU.decoder_private s))) in *.
  assert (Hreq : n ≤ req) by lia.
  split; [exact Hreq|].
  destruct (Z.eqb_spec n 0) as [Hz|Hnz].
  { rewrite Hz. reflexivity. }
  destruct (Z.eqb_spec n (-1)) as [Hneg|_]; [lia|].
  rewrite (to_Uint32_id (AU.remaining (AU.decoder_private s) - n)) by lia.
  cbn [AU.encoding AU.set_dec AU.decoder_private AU.set_rw AU.set_buffer
       AU.flags AU.buffer AU.actual AU.rw AU.buffer_size AU.set_flags].
  destruct (AU.encoding (AU.decoder_private s) =? AU.AU_ENC_ULAW_8) eqn:Henc.
  - assert (Hhalf : AU.AU_cap s = AU.buffer_size s / 2
                    ∧ AU.AU_offset s = AU.buffer_size s / 2).
    { unfold AU.AU_cap, AU.AU_offset. rewrite Henc. auto. }
    destruct Hhalf as [Hc Ho].
    assert (Hloop := ulaw_loop_spec big_endian l (Z.to_nat (AU.AU_offset s))
              (write_at (AU.buffer s) (Z.to_nat (AU.AU_offset s)) l)).
    assert (Hlen' : length (write_at (AU.buffer s) (Z.to_nat (AU.AU_offset s)) l)
                    = length (AU.buffer s)).
    { apply length_write_at. lia. }
    specialize (Hloop ltac:(lia) ltac:(lia)).
    specialize (Hloop ltac:(intros j Hj; apply lookup_write_at; lia)).
    assert (Hloop0 :
      AU.ulaw_loop big_endian (length l) 0 (Z.to_nat (AU.AU_offset s))
        (write_at (AU.buffer s) (Z.to_nat (AU.AU_offset s)) l) []
      = (AU.ulaw_expand big_endian l
           ++ drop (2 * length l)
                (write_at (AU.buffer s) (Z.to_nat (AU.AU_offset s)) l),
         AU.ulaw_accesses (Z.to_nat (AU.AU_offset s)) 0 (length l)))
      by exact (Hloop (length l) 0%nat [] eq_refl).
    clear Hloop.
    replace (Z.to_nat n) with (length l) by lia.
    assert (Hshift : to_Uint32 (to_Sint32 (Z.shiftl n 1)) = 2 * n).
    { rewrite Z.shiftl_mul_pow2 by lia. change (2 ^ 1) with 2.
      rewrite to_Sint32_id by lia. rewrite to_Uint32_id by lia. lia. }
    rewrite Hshift.
    destruct (n <? req);
      cbn [AU.buffer AU.set_flags AU.set_dec AU.set_rw AU.set_buffer];
      rewrite Hloop0; reflexivity.
  - rewrite to_Uint32_id by lia.
    destruct (n <? req); reflexivity.
Qed.

(** What [AU_read] does when the stream read fails. *)
Lemma AU_read_log_error (s : AU.Sound_Sample R) rw' :
  SDL_RWread (AU.rw s) (AU.AU_request s).1 = (RWerror, rw') →
  AU.AU_read_log big_endian s =
    (UINT32_MAX,
     AU.set_flags
       (AU.set_rw (AU.set_buffer s
          (write_at (AU.buffer s) (Z.to_nat (AU.AU_request s).2) [])) rw')
       (Z.lor (AU.flags s) SOUND_SAMPLEFLAG_ERROR),
     []).
Proof.
  intros Hread. unfold AU.AU_read_log.
  destruct (AU.AU_request s) as [maxlen buf]. cbn [fst snd] in *.
  rewrite Hread. reflexivity.
Qed.

End AU_read_facts.

Section AU_claims.

Context {R : Type} {RW : RWops R}.
Variable big_endian : bool.

Lemma AU_read_wf (s : AU.Sound_Sample R) :
  AU.wf_sample s → AU.wf_sample (AU.AU_read big_endian s).2.
Proof.
  intros Hwf. unfold AU.AU_read.
  pose proof (AU_cap_bounds s Hwf) as (Hcap0 & Hcap & Hoff0).
  pose proof Hwf as (Hsize & Hlen & Hrem).
  destruct (SDL_RWread (AU.rw s) (AU.AU_request s).1) as [[|l] rw'] eqn:Hread.
  - rewrite (AU_read_log_error big_endian s rw' Hread).
    cbn [fst snd]. unfold AU.wf_sample. cbn. rewrite write_at_nil. auto.
  - destruct (AU_read_log_data big_endian s l rw' Hwf Hread) as [Hn ->].
    assert (Hraw : length (write_at (AU.buffer s) (Z.to_nat (AU.AU_offset s)) l)
                   = length (AU.buffer s)) by (apply length_write_at; lia).
    destruct (Z.of_nat (length l) =? 0).
    { unfold AU.wf_sample. cbn. rewrite Hraw. auto. }
    cbv zeta.
    destruct (AU.encoding (AU.decoder_private s) =? AU.AU_ENC_ULAW_8) eqn:Henc.
    + assert (AU.AU_cap s = AU.buffer_size s / 2
              ∧ AU.AU_offset s = AU.buffer_size s / 2) as [Hc Ho].
      { unfold AU.AU_cap, AU.AU_offset. rewrite Henc. auto. }
      destruct (_ <? _); unfold AU.wf_sample; cbn;
        rewrite length_app, length_ulaw_expand, length_drop, Hraw;
        (split; [lia|split; lia]).
    + destruct (_ <? _); unfold AU.wf_sample; cbn; rewrite Hraw;
        (split; [lia|split; lia]).
Qed.

Lemma AU_reads_wf (s : AU.Sound_Sample R) k :
  AU.wf_sample s → AU.wf_sample (AU.AU_reads big_endian k s).
Proof.
  revert s. induction k as [|k IH]; intros s Hwf; [exact Hwf|].
  cbn [AU.AU_reads]. apply IH, AU_read_wf, Hwf.
Qed.

(** C1 (the code does otherwise).  When the stream delivers a full 24-byte
    header whose magic does not match and the extension hint is not "au" up
    to case, [AU_open] falls out of both branches: it returns 1, records no
    error, and leaves the decoder state as [malloc] returned it. *)
Theorem AU_open_bad_magic_other_ext_accepts
    (sample : AU.Sound_Sample R) dec ext hdr rw' :
  SDL_RWread (AU.rw sample) AU.HDR_SIZE = (RWdata hdr, rw') →
  length hdr = 24%nat →
  le32 (take 4 hdr) ≠ AU.AU_MAGIC →
  __Sound_strcasecmp ext (Some "au"%string) ≠ 0 →
  AU.AU_open (Some dec) sample ext
  = (1, None,
     AU.set_flags (AU.set_rw (AU.set_dec sample dec) rw') SOUND_SAMPLEFLAG_NONE).
Proof.
  intros Hread Hlen Hmagic Hext. unfold AU.AU_open.
  cbn [AU.rw AU.set_dec]. rewrite Hread. cbn [rw_count rw_bytes].
  rewrite Hlen.
  destruct (Z.ltb_spec (Z.of_nat 24) AU.HDR_SIZE) as [Hlt|_].
  { unfold AU.HDR_SIZE in Hlt. lia. }
  destruct (Z.eqb_spec (le32 (take 4 hdr)) AU.AU_MAGIC) as [Heq|_];
    [contradiction|].
  destruct (Z.eqb_spec (__Sound_strcasecmp ext (Some "au"%string)) 0)
    as [Heq|_]; [contradiction|].
  reflexivity.
Qed.

(** C3, as amended.  A successful nonzero [AU_read] lowers [remaining] by
    exactly the number of raw bytes the stream delivered, whatever value it
    held, the all-ones value of the headerless case included: the result is
    nonnegative and strictly smaller than before. *)
Theorem AU_read_remaining_decreases (s : AU.Sound_Sample R) l rw' :
  AU.wf_sample s →
  SDL_RWread (AU.rw s) (AU.AU_request s).1 = (RWdata l, rw') →
  l ≠ [] →
  let before := AU.remaining (AU.decoder_private s) in
  let after := AU.remaining (AU.decoder_private (AU.AU_read big_endian s).2) in
  after = before - Z.of_nat (length l) ∧ 0 ≤ after < before.
Proof.
  intros Hwf Hread Hnil. cbv zeta. unfold AU.AU_read.
  destruct (AU_read_log_data big_endian s l rw' Hwf Hread) as [Hn ->].
  assert (Hpos : 0 < Z.of_nat (length l)).
  { destruct l; [contradiction|]. cbn [length]. lia. }
  destruct (Z.eqb_spec (Z.of_nat (length l)) 0) as [Hz|_]; [lia|].
  cbv zeta.
  destruct (AU.encoding (AU.decoder_private s) =? AU.AU_ENC_ULAW_8);
    destruct (_ <? _); cbn; lia.
Qed.

(** The .au half of the capacity bound: when the stream read does not
    fail, the byte count [AU_read] reports fits the scratch buffer. *)
Lemma AU_read_within_capacity (s : AU.Sound_Sample R) l rw' :
  AU.wf_sample s →
  SDL_RWread (AU.rw s) (AU.AU_request s).1 = (RWdata l, rw') →
  0 ≤ (AU.AU_read big_endian s).1 ≤ AU.buffer_size s.
Proof.
  intros Hwf Hread. unfold AU.AU_read.
  pose proof (AU_cap_bounds s Hwf) as (Hcap0 & Hcap & Hoff0).
  destruct (AU_read_log_data big_endian s l rw' Hwf Hread) as [Hn ->].
  destruct (Z.eqb_spec (Z.of_nat (length l)) 0) as [Hz|Hnz].
  { cbn. destruct Hwf as (? & _). lia. }
  cbv zeta.
  destruct (AU.encoding (AU.decoder_private s) =? AU.AU_ENC_ULAW_8) eqn:Henc.
  - assert (AU.AU_cap s = AU.buffer_size s / 2
            ∧ AU.AU_offset s = AU.buffer_size s / 2) as [Hc Ho].
    { unfold AU.AU_cap, AU.AU_offset. rewrite Henc. auto. }
    cbn [fst]. lia.
  - assert (AU.AU_cap s = AU.buffer_size s) as Hc.
    { unfold AU.AU_cap. rewrite Henc. auto. }
    cbn [fst]. lia.
Qed.

(** C9 (the code does otherwise).  When the stream read fails, [AU_read]
    returns the -1 of the stream as its unsigned byte count, 4294967295,
    which is more than the capacity of any scratch buffer. *)
Theorem AU_read_error_count_exceeds_capacity (s : AU.Sound_Sample R) rw' :
  0 ≤ AU.buffer_size s ≤ INT_MAX →
  SDL_RWread (AU.rw s) (AU.AU_request s).1 = (RWerror, rw') →
  (AU.AU_read big_endian s).1 = UINT32_MAX
  ∧ AU.buffer_size s < (AU.AU_read big_endian s).1
  ∧ has_flag (AU.flags (AU.AU_read big_endian s).2) SOUND_SAMPLEFLAG_ERROR
    = true.
Proof.
  intros Hsize Hread. unfold AU.AU_read.
  rewrite (AU_read_log_error big_endian s rw' Hread). cbn [fst snd AU.flags AU.set_flags].
  unfold INT_MAX, UINT32_MAX in *. split; [reflexivity|]. split; [lia|].
  unfold has_flag. apply negb_true_iff, Z.eqb_neq. intros Hzero.
  assert (Hbit : Z.testbit
            (Z.land (Z.lor (AU.flags s) SOUND_SAMPLEFLAG_ERROR)
                    SOUND_SAMPLEFLAG_ERROR) 30 = true).
  { rewrite Z.land_spec, Z.lor_spec. unfold SOUND_SAMPLEFLAG_ERROR.
    rewrite Z.shiftl_1_l, Z.pow2_bits_true by lia.
    apply andb_true_iff. split; [apply orb_true_r|reflexivity]. }
  rewrite Hzero in Hbit. rewrite Z.bits_0 in Hbit. discriminate.
Qed.

(** C4, as amended.  For a decoder whose [remaining] is bounded, after any
    number of calls of [AU_read] the next call consumes no more raw bytes
    than [remaining] held and lowers it by exactly that many, so it never
    goes below zero.  The call that first sets END_OF_STREAM consumed
    nothing and left [remaining] as it was; [remaining] is 0 at that point
    unless the per-call cap is 0 or the stream gave no bytes when asked for
    some, that is, it ended before the declared data size was reached. *)
Theorem AU_read_remaining_never_negative (s : AU.Sound_Sample R) k :
  AU.wf_sample s →
  let sk := AU.AU_reads big_endian k s in
  let sk' := (AU.AU_read big_endian sk).2 in
  let n := Z.of_nat (length (AU.AU_raw sk)) in
  let before := AU.remaining (AU.decoder_private sk) in
  let after := AU.remaining (AU.decoder_private sk') in
  n ≤ before ∧ after = before - n ∧ 0 ≤ after
  ∧ (has_flag (AU.flags sk) SOUND_SAMPLEFLAG_EOF = false →
     has_flag (AU.flags sk') SOUND_SAMPLEFLAG_EOF = true →
     n = 0 ∧ after = before
     ∧ (before = 0 ∨ AU.AU_cap sk = 0
        ∨ (0 < (AU.AU_request sk).1
           ∧ (SDL_RWread (AU.rw sk) (AU.AU_request sk).1).1 = RWdata []))).
Proof.
  intros Hwf0. cbv zeta.
  pose proof (AU_reads_wf s k Hwf0) as Hwf.
  set (sk := AU.AU_reads big_endian k s) in *. clearbody sk. clear s Hwf0.
  pose proof (AU_cap_bounds sk Hwf) as (Hcap0 & Hcap & Hoff0).
  pose proof Hwf as (Hsize & Hlen & Hrem).
  unfold AU.AU_read, AU.AU_raw.
  destruct (SDL_RWread (AU.rw sk) (AU.AU_request sk).1) as [[|l] rw'] eqn:Hread.
  - rewrite (AU_read_log_error big_endian sk rw' Hread). cbn.
    rewrite has_flag_lor_other by reflexivity.
    split; [lia|split; [lia|split; [lia|]]]. intros H1 H2. congruence.
  - destruct (AU_read_log_data big_endian sk l rw' Hwf Hread) as [Hn ->].
    cbn [rw_bytes fst snd].
    rewrite (AU_request_eq sk Hwf). cbn [fst].
    destruct (Z.eqb_spec (Z.of_nat (length l)) 0) as [Hz|Hnz].
    + cbn. split; [lia|split; [lia|split; [lia|]]]. intros _ _.
      split; [lia|split; [lia|]]. destruct l; [|discriminate].
      destruct (Z.lt_total 0 (AU.AU_cap sk
                  `min` AU.remaining (AU.decoder_private sk)))
        as [Hpos|[Hzero|Hneg]]; [| |lia].
      * right. right. split; [exact Hpos|reflexivity].
      * destruct (Z.min_spec (AU.AU_cap sk)
                    (AU.remaining (AU.decoder_private sk))) as [[_ E]|[_ E]];
          [right; left|left]; lia.
    + cbv zeta.
      destruct (AU.encoding (AU.decoder_private sk) =? AU.AU_ENC_ULAW_8);
        destruct (_ <? _); cbn;
        rewrite ?has_flag_lor_other by reflexivity;
        (split; [lia|split; [lia|split; [lia|]]]); intros H1 H2; congruence.
Qed.

(** C6, as amended.  For every [AU_read] on a µ-law sample whose stream
    read does not fail: the raw bytes go to offset [buffer_size / 2] and at
    most [buffer_size / 2] of them are asked for (fewer if [remaining] is
    smaller); each of the [n] raw bytes indexes the 256-entry table, which
    gives one signed 16-bit sample stored at the 16-bit index [i] counted
    from the start of the buffer (bytes [2i] and [2i+1]), so the output
    fills the first [2n] bytes of the buffer and the bytes behind them are
    as the stream read left them; the byte count returned is [2n]. *)
Theorem AU_read_ulaw_expansion (s : AU.Sound_Sample R) l rw' :
  AU.wf_sample s →
  AU.encoding (AU.decoder_private s) = AU.AU_ENC_ULAW_8 →
  SDL_RWread (AU.rw s) (AU.AU_request s).1 = (RWdata l, rw') →
  let half := AU.buffer_size s / 2 in
  let n := length l in
  let raw_buffer := write_at (AU.buffer s) (Z.to_nat half) l in
  let out := AU.buffer (AU.AU_read big_endian s).2 in
  AU.AU_request s
    = (Z.min half (AU.remaining (AU.decoder_private s)), half)
  ∧ Z.of_nat n ≤ half
  ∧ (AU.AU_read big_endian s).1 = 2 * Z.of_nat n
  ∧ out = AU.ulaw_expand big_endian l ++ drop (2 * n) raw_buffer
  ∧ ∀ i b, l !! i = Some b →
      AU.ulaw_to_linear !! Z.to_nat b = Some (AU.ulaw_lookup b)
      ∧ -32768 ≤ AU.ulaw_lookup b ≤ 32767
      ∧ take 2 (drop (2 * i) out)
        = AU.Sint16_bytes big_endian (AU.ulaw_lookup b).
Proof.
  intros Hwf Henc Hread. cbv zeta.
  assert (Henc' : (AU.encoding (AU.decoder_private s) =? AU.AU_ENC_ULAW_8)
                  = true) by (rewrite Henc; reflexivity).
  assert (AU.AU_cap s = AU.buffer_size s / 2
          ∧ AU.AU_offset s = AU.buffer_size s / 2) as [Hc Ho].
  { unfold AU.AU_cap, AU.AU_offset. rewrite Henc'. auto. }
  pose proof (SDL_RWread_bytes _ _ _ _ Hread) as Hbytes.
  unfold AU.AU_read.
  destruct (AU_read_log_data big_endian s l rw' Hwf Hread) as [Hn ->].
  rewrite (AU_request_eq s Hwf), Hc, Ho in *.
  split; [reflexivity|]. split; [lia|].
  assert (Hout :
    ∀ X : Z * AU.Sound_Sample R * list AU.access,
      X.1.1 = 2 * Z.of_nat (length l) →
      AU.buffer X.1.2
        = AU.ulaw_expand big_endian l
            ++ drop (2 * length l)
                 (write_at (AU.buffer s) (Z.to_nat (AU.buffer_size s / 2)) l) →
      X.1.1 = 2 * Z.of_nat (length l)
      ∧ AU.buffer X.1.2
        = AU.ulaw_expand big_endian l
            ++ drop (2 * length l)
                 (write_at (AU.buffer s) (Z.to_nat (AU.buffer_size s / 2)) l)
      ∧ ∀ i b, l !! i = Some b →
          AU.ulaw_to_linear !! Z.to_nat b = Some (AU.ulaw_lookup b)
          ∧ -32768 ≤ AU.ulaw_lookup b ≤ 32767
          ∧ take 2 (drop (2 * i) (AU.buffer X.1.2))
            = AU.Sint16_bytes big_endian (AU.ulaw_lookup b)).
  { intros X H1 H2. split; [exact H1|]. split; [exact H2|].
    intros i b Hi.
    assert (Hb : 0 ≤ b < 256).
    { rewrite Forall_forall in Hbytes. apply Hbytes.
      eapply list_elem_of_lookup_2, Hi. }
    destruct (ulaw_lookup_in_table b Hb) as [Ht Hr].
    split; [exact Ht|]. split; [exact Hr|].
    rewrite H2. apply ulaw_expand_sample, Hi. }
  destruct (Z.eqb_spec (Z.of_nat (length l)) 0) as [Hz|Hnz].
  - destruct l; [|discriminate]. apply Hout; cbn; [reflexivity|].
    rewrite write_at_nil. reflexivity.
  - cbv zeta. rewrite Henc'.
    destruct (_ <? _); apply Hout; reflexivity.
Qed.

End AU_claims.

(** C10, as amended.  The raw block of the in-place expansion starts at the
    fixed offset [half], half the capacity, whatever the number [n] of raw
    bytes is.  For every [n ≤ half] and every index [i < n], the stores to
    offsets [2i] and [2i+1] come only after the load of the source byte at
    offset [half + i], and the loop leaves in the buffer exactly what
    expanding a separate copy of the raw bytes gives, followed by the
    untouched rest of the buffer. *)
Theorem ulaw_in_place_expansion_refines_copy
    (big_endian : bool) (buffer raw : list Z) (half : nat) :
  (2 * half ≤ length buffer)%nat →
  (length raw ≤ half)%nat →
  take (length raw) (drop half buffer) = raw →
  let n := length raw in
  let run := AU.ulaw_loop big_endian n 0 half buffer [] in
  run.1 = AU.ulaw_expand big_endian raw ++ drop (2 * n) buffer
  ∧ run.2 = AU.ulaw_accesses half 0 n
  ∧ ∀ i, (i < n)%nat →
      AU.only_after (AU.LoadByte (half + i)) (AU.StoreByte (2 * i)) run.2 = true
      ∧ AU.only_after (AU.LoadByte (half + i)) (AU.StoreByte (2 * i + 1)) run.2 = true.
Proof.
  intros Hcap Hn Hraw. cbv zeta.
  assert (Hloop :
    AU.ulaw_loop big_endian (length raw) 0 half buffer []
    = (AU.ulaw_expand big_endian raw ++ drop (2 * length raw) buffer,
       AU.ulaw_accesses half 0 (length raw))).
  { refine (ulaw_loop_spec big_endian raw half buffer Hn _ _
              (length raw) 0%nat [] eq_refl); [lia|].
    intros j Hj.
    transitivity (take (length raw) (drop half buffer) !! j);
      [|rewrite Hraw; reflexivity].
    rewrite lookup_take_lt by lia. rewrite lookup_drop. reflexivity. }
  rewrite Hloop. cbn [fst snd].
  split; [reflexivity|]. split; [reflexivity|].
  intros i Hi. apply only_after_accesses. lia.
Qed.

(** ** The stream bridge of the MP3 decoder *)

Section Bridge_claims.

Context {Strm : Type} {IO : MP3.IOStream Strm}.

Lemma mp3_read_loop_spec fuel :
  ∀ (io : Strm) out n rv log,
    0 ≤ n → 0 ≤ rv → rv + n < 2 ^ 64 → (Z.to_nat n < fuel)%nat →
    ∃ r log2,
      MP3.mp3_read_loop fuel io out n rv log = Some r
      ∧ MP3.calls r = log ++ log2
      ∧ MP3.bridge_calls n log2
      ∧ MP3.retval r = rv + MP3.total_delivered log2
      ∧ Z.of_nat (length (MP3.stored r))
        = Z.of_nat (length out) + MP3.total_delivered log2
      ∧ MP3.total_delivered log2 ≤ n
      ∧ (MP3.total_delivered log2 = n
         ∨ ∃ c, last log2 = Some c ∧ MP3.delivered c = 0).
Proof.
  induction fuel as [|fuel IH]; intros io out n rv log Hn Hrv Hsum Hfuel;
    [lia|].
  cbn [MP3.mp3_read_loop].
  destruct (Z.eqb_spec n 0) as [->|Hnz].
  { exists (MP3.mkBridge rv out io log), []. cbn.
    rewrite app_nil_r. repeat split; lia. }
  destruct (MP3.SDL_ReadIO io n) as [chunk io'] eqn:Hread.
  pose proof (MP3.SDL_ReadIO_bound _ _ _ _ Hread) as Hbound.
  set (rc := Z.of_nat (length chunk)) in *.
  destruct (Z.eqb_spec rc 0) as [Hz|Hrc].
  { exists (MP3.mkBridge rv out io' (log ++ [MP3.mkCall n rc])),
           [MP3.mkCall n rc]. cbn. rewrite Hz. cbn.
    repeat split; try lia. right. eexists. split; reflexivity. }
  unfold MP3.to_size_t. rewrite !to_Uint64_id by lia.
  destruct (IH io' (out ++ chunk) (n - rc) (rv + rc)
              (log ++ [MP3.mkCall n rc]))
    as (r & log2 & Hloop & Hcalls & Hchain & Hret & Hlen & Hle & Hlast);
    try lia.
  exists r, (MP3.mkCall n rc :: log2). rewrite Hloop.
  split; [reflexivity|]. split; [rewrite Hcalls, <- app_assoc; reflexivity|].
  split.
  { cbn. destruct (Z.eqb_spec rc 0); [lia|]. repeat split; try lia.
    exact Hchain. }
  rewrite length_app in Hlen. cbn [MP3.total_delivered foldr MP3.delivered].
  fold (MP3.total_delivered log2).
  split; [lia|]. split; [lia|]. split; [lia|].
  destruct Hlast as [Hfull|(c & Hc & Hzero)]; [left; lia|].
  right. exists c. split; [|exact Hzero].
  destruct log2 as [|c0 log2]; [discriminate|]. exact Hc.
Qed.

(** The loop follows the stream call by call. *)
Lemma mp3_read_loop_run fuel :
  ∀ (io : Strm) out n rv log,
    0 ≤ n → 0 ≤ rv → rv + n < 2 ^ 64 → (Z.to_nat n < fuel)%nat →
    ∃ r out2 log2,
      MP3.mp3_read_loop fuel io out n rv log = Some r
      ∧ MP3.stored r = out ++ out2
      ∧ MP3.calls r = log ++ log2
      ∧ MP3.bridge_reads io n out2 log2 (MP3.stream_after r).
Proof.
  induction fuel as [|fuel IH]; intros io out n rv log Hn Hrv Hsum Hfuel;
    [lia|].
  cbn [MP3.mp3_read_loop].
  destruct (Z.eqb_spec n 0) as [->|Hnz].
  { exists (MP3.mkBridge rv out io log), [], []. cbn.
    rewrite !app_nil_r. repeat split. constructor. }
  destruct (MP3.SDL_ReadIO io n) as [chunk io'] eqn:Hread.
  pose proof (MP3.SDL_ReadIO_bound _ _ _ _ Hread) as Hbound.
  destruct (Z.eqb_spec (Z.of_nat (length chunk)) 0) as [Hz|Hrc].
  { assert (chunk = []) as -> by (destruct chunk; [reflexivity|discriminate]).
    exists (MP3.mkBridge rv out io' (log ++ [MP3.mkCall n 0])), [],
           [MP3.mkCall n 0].
    cbn. rewrite app_nil_r. repeat split.
    apply MP3.bridge_dry; assumption. }
  unfold MP3.to_size_t. rewrite !to_Uint64_id by lia.
  destruct (IH io' (out ++ chunk) (n - Z.of_nat (length chunk))
              (rv + Z.of_nat (length chunk))
              (log ++ [MP3.mkCall n (Z.of_nat (length chunk))]))
    as (r & out2 & log2 & Hloop & Hstored & Hcalls & Hrun); try lia.
  exists r, (chunk ++ out2), (MP3.mkCall n (Z.of_nat (length chunk)) :: log2).
  split; [exact Hloop|].
  split; [rewrite Hstored, <- app_assoc; reflexivity|].
  split; [rewrite Hcalls, <- app_assoc; reflexivity|].
  apply MP3.bridge_more with (io' := io'); try assumption.
  intros ->. apply Hrc. reflexivity.
Qed.

(** C8.  For a request of [n] bytes the bridge calls the read primitive of
    the stream again and again, each time for what is still missing and on
    the stream as the call before left it, and stores what each call
    delivers behind what is already there, until [n] bytes are there or the
    stream delivers none: a short read alone never ends the loop and is no
    error.  The loop ends, and the value returned is the number of bytes
    stored in the output buffer, the sum of what the calls delivered. *)
Theorem mp3_read_accumulates (io : Strm) (n : Z) :
  0 ≤ n < 2 ^ 64 →
  ∃ r,
    MP3.mp3_read io n = Some r
    ∧ MP3.bridge_reads io n (MP3.stored r) (MP3.calls r) (MP3.stream_after r)
    ∧ MP3.bridge_calls n (MP3.calls r)
    ∧ MP3.retval r = MP3.total_delivered (MP3.calls r)
    ∧ MP3.retval r = Z.of_nat (length (MP3.stored r))
    ∧ MP3.retval r ≤ n
    ∧ (MP3.retval r = n
       ∨ ∃ c, last (MP3.calls r) = Some c ∧ MP3.delivered c = 0).
Proof.
  intros Hn. unfold MP3.mp3_read.
  destruct (mp3_read_loop_spec (S (Z.to_nat n)) io [] n 0 [])
    as (r & log2 & Hloop & Hcalls & Hchain & Hret & Hlen & Hle & Hlast);
    try lia.
  destruct (mp3_read_loop_run (S (Z.to_nat n)) io [] n 0 [])
    as (r' & out3 & log3 & Hloop' & Hstored' & Hcalls' & Hrun); try lia.
  rewrite Hloop in Hloop'. injection Hloop' as <-.
  cbn [app length] in *. subst log2 out3 log3.
  exists r. split; [exact Hloop|]. split; [exact Hrun|].
  repeat split; try assumption; try lia.
  destruct Hlast as [Hfull|Hlast]; [left; lia|right; exact Hlast].
Qed.

End Bridge_claims.

(** ** The MP3 decoder *)

Section MP3_claims.

Context {Strm D : Type} {DR : MP3.Drmp3 Strm D}.
Variable ms_to_frame : Z → Z → Z.

(** C5, as amended.  When the decompressor opens the stream, [MP3_open]
    succeeds and sets the total duration to -1 if the decompressor reports
    zero PCM frames, and otherwise to
    [frames / rate * 1000 + (frames mod rate) * 1000 / rate], with
    truncating integer division, for every rate above zero and every
    duration of at most 2147483647 milliseconds, the largest number the
    signed 32-bit field holds; 44100 frames at 44100 Hz give exactly
    1000. *)
Theorem MP3_open_total_time (sample : MP3.Sound_Sample Strm D) ext dr frames dr' :
  (MP3.drmp3_init (MP3.rw sample)).1 = Some dr →
  MP3.drmp3_get_pcm_frame_count dr = (frames, dr') →
  let rate := MP3.dr_sampleRate dr' in
  let duration := frames / rate * 1000 + frames mod rate * 1000 / rate in
  0 < rate →
  duration ≤ INT_MAX →
  let opened := MP3.MP3_open true sample ext in
  opened.1.1 = 1
  ∧ MP3.total_time opened.2 = (if frames =? 0 then -1 else duration)
  ∧ (frames = 44100 → rate = 44100 → MP3.total_time opened.2 = 1000).
Proof.
  intros Hinit Hcount. cbv zeta. intros Hrate Hdur.
  pose proof (MP3.drmp3_frame_count_range _ _ _ Hcount) as Hframes.
  pose proof (MP3.dr_sampleRate_range dr') as Hr.
  unfold MP3.MP3_open. cbn [negb].
  destruct (MP3.drmp3_init (MP3.rw sample)) as [init io].
  cbn [fst] in Hinit. rewrite Hinit, Hcount.
  cbn [fst snd MP3.total_time MP3.set_dec MP3.set_total_time].
  rewrite (to_Uint32_id (MP3.dr_sampleRate dr')) by lia.
  set (rate := MP3.dr_sampleRate dr') in *.
  assert (Htime : MP3.MP3_total_time frames rate
                  = if frames =? 0 then -1
                    else frames / rate * 1000 + frames mod rate * 1000 / rate).
  { unfold MP3.MP3_total_time. destruct (frames =? 0); [reflexivity|].
    assert (0 ≤ frames / rate) by (apply Z.div_pos; lia).
    pose proof (Z.mod_pos_bound frames rate Hrate).
    assert (0 ≤ frames mod rate * 1000 / rate) by (apply Z.div_pos; lia).
    unfold INT_MAX in Hdur.
    rewrite (to_Uint64_id (frames / rate * 1000)) by lia.
    rewrite (to_Sint32_id (frames / rate * 1000)) by lia.
    rewrite (to_Uint64_id (frames / rate * 1000)) by lia.
    rewrite (to_Uint64_id (frames mod rate * 1000)) by lia.
    rewrite to_Uint64_id by lia. rewrite to_Sint32_id by lia. reflexivity. }
  split; [reflexivity|]. split; [exact Htime|].
  intros Hf Hrt. rewrite Htime, Hf, Hrt. reflexivity.
Qed.

(** What one call of [MP3_read] computes, without the integer wrap. *)
Lemma MP3_read_eq (s : MP3.Sound_Sample Strm D) :
  0 < channels (MP3.actual s) ≤ INT_MAX →
  0 ≤ MP3.buffer_size s < 2 ^ 32 →
  let ch := channels (MP3.actual s) in
  let asked := MP3.buffer_size s / ch / 4 in
  let got :=
    (MP3.drmp3_read_pcm_frames_f32 (MP3.decoder_private s) asked).1.1 in
  MP3.MP3_frames_to_read s = asked
  ∧ 0 ≤ got ≤ asked
  ∧ asked * ch * 4 ≤ MP3.buffer_size s
  ∧ (MP3.MP3_read s).1 = got * ch * 4
  ∧ MP3.flags (MP3.MP3_read s).2
    = (if got <? asked
       then Z.lor (MP3.flags s) SOUND_SAMPLEFLAG_EOF else MP3.flags s).
Proof.
  intros Hch Hsize. cbv zeta. unfold INT_MAX in Hch.
  set (ch := channels (MP3.actual s)) in *.
  assert (Hquot : 0 ≤ MP3.buffer_size s / ch ≤ MP3.buffer_size s).
  { split; [apply Z.div_pos; lia|].
    apply Z.div_le_upper_bound; [lia|]. nia. }
  assert (Hasked : MP3.MP3_frames_to_read s = MP3.buffer_size s / ch / 4).
  { unfold MP3.MP3_frames_to_read. fold ch.
    rewrite (to_Sint32_id ch) by lia.
    rewrite !to_Uint32_id by lia. rewrite to_Uint64_id by lia. reflexivity. }
  split; [exact Hasked|].
  unfold MP3.MP3_read. rewrite Hasked. fold ch.
  set (asked := MP3.buffer_size s / ch / 4) in *.
  destruct (MP3.drmp3_read_pcm_frames_f32 (MP3.decoder_private s) asked)
    as [[rc out] dr'] eqn:Hread.
  cbn [fst snd].
  pose proof (MP3.drmp3_read_bound _ _ _ _ _ Hread) as [Hrc _].
  assert (Hasked0 : 0 ≤ asked) by (apply Z.div_pos; lia).
  assert (Hfit : asked * ch * 4 ≤ MP3.buffer_size s).
  { pose proof (Z.mul_div_le (MP3.buffer_size s / ch) 4).
    pose proof (Z.mul_div_le (MP3.buffer_size s) ch). nia. }
  assert (Hbytes : 0 ≤ rc * ch * 4 ≤ MP3.buffer_size s) by nia.
  rewrite (to_Sint32_id ch) by lia.
  rewrite (to_Uint64_id ch) by lia.
  rewrite (to_Uint64_id (rc * ch)) by nia.
  rewrite (to_Uint64_id (rc * ch * 4)) by lia.
  rewrite to_Uint32_id by lia.
  split; [lia|]. split; [exact Hfit|]. split; [reflexivity|].
  destruct (rc <? asked); reflexivity.
Qed.

(** C7.  Every [MP3_read] asks the decompressor for exactly
    [(buffer_size / channels) / 4] frames, returns the number of frames the
    decompressor gave times [channels] times 4, and sets END_OF_STREAM
    exactly when the decompressor gave fewer frames than were asked for (no
    other flag changes). *)
Theorem MP3_read_frames_and_bytes (s : MP3.Sound_Sample Strm D) :
  0 < channels (MP3.actual s) ≤ INT_MAX →
  0 ≤ MP3.buffer_size s < 2 ^ 32 →
  let ch := channels (MP3.actual s) in
  let asked := MP3.buffer_size s / ch / 4 in
  let got :=
    (MP3.drmp3_read_pcm_frames_f32 (MP3.decoder_private s) asked).1.1 in
  MP3.MP3_frames_to_read s = asked
  ∧ (MP3.MP3_read s).1 = got * ch * 4
  ∧ MP3.flags (MP3.MP3_read s).2
    = (if got <? asked
       then Z.lor (MP3.flags s) SOUND_SAMPLEFLAG_EOF else MP3.flags s)
  ∧ (has_flag (MP3.flags s) SOUND_SAMPLEFLAG_EOF = false →
     (has_flag (MP3.flags (MP3.MP3_read s).2) SOUND_SAMPLEFLAG_EOF = true
      ↔ got < asked)).
Proof.
  intros Hch Hsize. cbv zeta.
  destruct (MP3_read_eq s Hch Hsize) as (Hasked & _ & _ & Hret & Hflags).
  split; [exact Hasked|]. split; [exact Hret|]. split; [exact Hflags|].
  intros Hclear. rewrite Hflags.
  destruct (Z.ltb_spec
              (MP3.drmp3_read_pcm_frames_f32 (MP3.decoder_private s)
                 (MP3.buffer_size s / channels (MP3.actual s) / 4)).1.1
              (MP3.buffer_size s / channels (MP3.actual s) / 4)) as [Hlt|Hge].
  - rewrite has_flag_lor_self by (vm_compute; discriminate). tauto.
  - rewrite Hclear. split; [discriminate|lia].
Qed.

(** The MP3 half of the capacity bound: the frames [MP3_read] asks for fit
    the scratch buffer, and so does the byte count it reports. *)
Lemma MP3_read_within_capacity (s : MP3.Sound_Sample Strm D) :
  0 < channels (MP3.actual s) ≤ INT_MAX →
  0 ≤ MP3.buffer_size s < 2 ^ 32 →
  MP3.MP3_frames_to_read s * channels (MP3.actual s) * 4 ≤ MP3.buffer_size s
  ∧ 0 ≤ (MP3.MP3_read s).1 ≤ MP3.buffer_size s.
Proof.
  intros Hch Hsize.
  destruct (MP3_read_eq s Hch Hsize) as (-> & Hgot & Hfit & -> & _).
  split; [exact Hfit|]. nia.
Qed.

Lemma MP3_rewind_flags (s : MP3.Sound_Sample Strm D) :
  MP3.flags (MP3.MP3_rewind s).2 = MP3.flags s.
Proof.
  unfold MP3.MP3_rewind.
  destruct (MP3.drmp3_seek_to_pcm_frame _ _). reflexivity.
Qed.

Lemma MP3_seek_flags (s : MP3.Sound_Sample Strm D) ms :
  MP3.flags (MP3.MP3_seek ms_to_frame s ms).2 = MP3.flags s.
Proof.
  unfold MP3.MP3_seek.
  destruct (MP3.drmp3_seek_to_pcm_frame _ _). reflexivity.
Qed.

Lemma MP3_read_flags (s : MP3.Sound_Sample Strm D) :
  flags_le (MP3.flags s) (MP3.flags (MP3.MP3_read s).2).
Proof.
  unfold MP3.MP3_read.
  destruct (MP3.drmp3_read_pcm_frames_f32 _ _) as [[rc out] dr'].
  destruct (_ <? _); cbn; [apply flags_le_lor|apply flags_le_refl].
Qed.

End MP3_claims.

Lemma AU_read_flags {R : Type} {RW : RWops R} big_endian
    (s : AU.Sound_Sample R) :
  flags_le (AU.flags s) (AU.flags (AU.AU_read big_endian s).2).
Proof.
  unfold AU.AU_read, AU.AU_read_log.
  destruct (AU.AU_request s) as [maxlen buf].
  destruct (SDL_RWread (AU.rw s) maxlen) as [res rw1].
  destruct (rw_count res =? 0); [apply flags_le_lor|].
  destruct (rw_count res =? -1); [apply flags_le_lor|].
  cbn [AU.encoding].
  destruct (AU.encoding (AU.decoder_private s) =? AU.AU_ENC_ULAW_8).
  - destruct (AU.ulaw_loop _ _ _ _ _ _) as [buffer' log].
    destruct (_ <? _); cbn; [apply flags_le_lor|apply flags_le_refl].
  - destruct (_ <? _); cbn; [apply flags_le_lor|apply flags_le_refl].
Qed.

(** C2, as amended.  [MP3_rewind] and [MP3_seek] leave the flags of the
    sample exactly as they were, whether or not they succeed: the decoder
    does not clear END_OF_STREAM, which stays set after a successful rewind
    that follows a read that set it.  The read operations of both decoders
    never clear a flag that is set. *)
Theorem decoder_flags_never_cleared
    {Strm D R : Type} {DR : MP3.Drmp3 Strm D} {RW : RWops R}
    (ms_to_frame : Z → Z → Z) (big_endian : bool)
    (s : MP3.Sound_Sample Strm D) (ms : Z) (a : AU.Sound_Sample R) :
  MP3.flags (MP3.MP3_rewind s).2 = MP3.flags s
  ∧ has_flag (MP3.flags (MP3.MP3_rewind s).2) SOUND_SAMPLEFLAG_EOF
    = has_flag (MP3.flags s) SOUND_SAMPLEFLAG_EOF
  ∧ MP3.flags (MP3.MP3_seek ms_to_frame s ms).2 = MP3.flags s
  ∧ flags_le (MP3.flags s) (MP3.flags (MP3.MP3_read s).2)
  ∧ flags_le (AU.flags a) (AU.flags (AU.AU_read big_endian a).2).
Proof.
  split; [apply MP3_rewind_flags|].
  split; [rewrite MP3_rewind_flags; reflexivity|].
  split; [apply MP3_seek_flags|].
  split; [apply MP3_read_flags|apply AU_read_flags].
Qed.

(** * The decoders run on concrete streams *)

(** The scenario of a header that declares 10 bytes of 8-bit linear data
    followed by exactly those 10 bytes: the first read returns all 10 and
    sets no flag, the second returns 0 and sets END_OF_STREAM. *)
Example AU_scenario_ten_bytes :
  let opened :=
    AU.AU_open (Some (AU.mkAudec 0 0))
      (AU.closed_sample (AU.au_header 10 2 ++ [1; 2; 3; 4; 5; 6; 7; 8; 9; 10])
                        34 false 16)
      (Some "au"%string) in
  let r1 := AU.AU_read false opened.2 in
  let r2 := AU.AU_read false r1.2 in
  opened.1 = (1, None)
  ∧ AU.actual opened.2 = mkAudioInfo AUDIO_S8 1 8000
  ∧ r1.1 = 10 ∧ AU.flags r1.2 = SOUND_SAMPLEFLAG_NONE
  ∧ take 10 (AU.buffer r1.2) = [1; 2; 3; 4; 5; 6; 7; 8; 9; 10]
  ∧ r2.1 = 0 ∧ AU.flags r2.2 = SOUND_SAMPLEFLAG_EOF.
Proof. vm_compute. repeat split. Qed.

(** A stream of 24 zero bytes opened with the hint "wav" is accepted. *)
Lemma AU_open_bad_magic_other_ext_accepts_witness :
  AU.AU_open (Some (AU.mkAudec 0 0))
             (AU.closed_sample (replicate 24 0) 24 false 16)
             (Some "wav"%string)
  = (1, None,
     AU.set_flags
       (AU.set_rw
          (AU.set_dec (AU.closed_sample (replicate 24 0) 24 false 16)
                      (AU.mkAudec 0 0))
          (mkMem (replicate 24 0) 24 24 false))
       SOUND_SAMPLEFLAG_NONE).
Proof.
  apply (AU_open_bad_magic_other_ext_accepts
           (AU.closed_sample (replicate 24 0) 24 false 16) (AU.mkAudec 0 0)
           (Some "wav"%string) (replicate 24 0)
           (mkMem (replicate 24 0) 24 24 false)).
  - reflexivity.
  - reflexivity.
  - vm_compute. discriminate.
  - vm_compute. discriminate.
Defined.

(** C2, the claim as stated fails: a read of a two-frame stream sets
    END_OF_STREAM, the rewind that follows succeeds, and the flag is still
    set. *)
Lemma MP3_rewind_keeps_END_OF_STREAM :
  let opened := MP3.MP3_open true (MP3.toy_sample 2 16) None in
  let s1 := (MP3.MP3_read opened.2).2 in
  let r := MP3.MP3_rewind s1 in
  opened.1.1 = 1
  ∧ has_flag (MP3.flags opened.2) SOUND_SAMPLEFLAG_EOF = false
  ∧ has_flag (MP3.flags s1) SOUND_SAMPLEFLAG_EOF = true
  ∧ r.1 = 1
  ∧ has_flag (MP3.flags r.2) SOUND_SAMPLEFLAG_EOF = true.
Proof. vm_compute. repeat split. Qed.

(** C3, the claim as stated fails: in the headerless case [remaining] holds
    the all-ones value, and a read of 8 raw bytes lowers it by 8. *)
Lemma AU_read_lowers_unbounded_remaining :
  let r := AU.AU_read false AU.legacy_sample in
  AU.remaining (AU.decoder_private AU.legacy_sample) = UINT32_MAX
  ∧ r.1 = 16
  ∧ AU.remaining (AU.decoder_private r.2) = UINT32_MAX - 8
  ∧ AU.remaining (AU.decoder_private r.2)
    ≠ AU.remaining (AU.decoder_private AU.legacy_sample).
Proof. vm_compute. repeat split. discriminate. Qed.

Lemma AU_read_remaining_decreases_witness :
  let before := AU.remaining (AU.decoder_private AU.legacy_sample) in
  let after :=
    AU.remaining (AU.decoder_private (AU.AU_read false AU.legacy_sample).2) in
  after = before - Z.of_nat (length (replicate 8 7)) ∧ 0 ≤ after < before.
Proof.
  apply (AU_read_remaining_decreases false AU.legacy_sample (replicate 8 7)
           (mkMem (replicate 40 7) 8 40 false)).
  - unfold AU.wf_sample. vm_compute. repeat split; discriminate.
  - reflexivity.
  - discriminate.
Defined.

(** C4, the claim as stated fails: the second read is the first to set
    END_OF_STREAM, and [remaining] is 6 then. *)
Lemma AU_read_eof_with_bytes_remaining :
  let s1 := (AU.AU_read false AU.truncated_sample).2 in
  let s2 := (AU.AU_read false s1).2 in
  AU.remaining (AU.decoder_private AU.truncated_sample) = 10
  ∧ has_flag (AU.flags AU.truncated_sample) SOUND_SAMPLEFLAG_EOF = false
  ∧ has_flag (AU.flags s1) SOUND_SAMPLEFLAG_EOF = false
  ∧ has_flag (AU.flags s2) SOUND_SAMPLEFLAG_EOF = true
  ∧ AU.remaining (AU.decoder_private s2) = 6
  ∧ AU.remaining (AU.decoder_private s2) ≠ 0.
Proof. vm_compute. repeat split. discriminate. Qed.

Lemma AU_read_remaining_never_negative_witness :
  let sk := AU.AU_reads false 1 AU.truncated_sample in
  let sk' := (AU.AU_read false sk).2 in
  let n := Z.of_nat (length (AU.AU_raw sk)) in
  let before := AU.remaining (AU.decoder_private sk) in
  let after := AU.remaining (AU.decoder_private sk') in
  n ≤ before ∧ after = before - n ∧ 0 ≤ after
  ∧ (has_flag (AU.flags sk) SOUND_SAMPLEFLAG_EOF = false →
     has_flag (AU.flags sk') SOUND_SAMPLEFLAG_EOF = true →
     n = 0 ∧ after = before
     ∧ (before = 0 ∨ AU.AU_cap sk = 0
        ∨ (0 < (AU.AU_request sk).1
           ∧ (SDL_RWread (AU.rw sk) (AU.AU_request sk).1).1 = RWdata []))).
Proof.
  apply (AU_read_remaining_never_negative false AU.truncated_sample 1).
  unfold AU.wf_sample. vm_compute. repeat split; discriminate.
Defined.

(** C5, the claim as stated fails: a stream of 2147484000 frames at 1000 Hz
    lasts 2147484000 milliseconds by the formula, which the signed 32-bit
    field does not hold; [MP3_open] stores -2147483296.  The same happens
    with 94704044400 frames at 44100 Hz. *)
Lemma MP3_open_total_time_wraps :
  let opened :=
    MP3.MP3_open true
      (MP3.mkSample SOUND_SAMPLEFLAG_NONE (mkAudioInfo AUDIO_unset 0 0)
                    MP3.long_stream (replicate 16 0) 16 0 (MP3.mkToy 0 0 0 0))
      None in
  let frames := 2147484000 in
  let hz := 1000 in
  opened.1.1 = 1
  ∧ rate (MP3.actual opened.2) = hz
  ∧ (MP3.drmp3_get_pcm_frame_count (MP3.decoder_private opened.2)).1 = frames
  ∧ frames / hz * 1000 + frames mod hz * 1000 / hz = 2147484000
  ∧ MP3.total_time opened.2 = -2147483296
  ∧ MP3.total_time opened.2
    ≠ frames / hz * 1000 + frames mod hz * 1000 / hz
  ∧ MP3.MP3_total_time 94704044400 44100 = -2147483296
  ∧ 94704044400 / 44100 * 1000 + 94704044400 mod 44100 * 1000 / 44100
    = 2147484000.
Proof. vm_compute. repeat split. discriminate. Qed.

Lemma MP3_open_total_time_witness :
  let frames := 44100 in
  let rate := MP3.dr_sampleRate (MP3.mkToy 1 44100 44100 0) in
  let duration := frames / rate * 1000 + frames mod rate * 1000 / rate in
  let opened := MP3.MP3_open true (MP3.toy_sample 44100 16) None in
  opened.1.1 = 1
  ∧ MP3.total_time opened.2 = (if frames =? 0 then -1 else duration)
  ∧ (frames = 44100 → rate = 44100 → MP3.total_time opened.2 = 1000).
Proof.
  apply (MP3_open_total_time (MP3.toy_sample 44100 16) None
           (MP3.mkToy 1 44100 44100 0) 44100 (MP3.mkToy 1 44100 44100 0)).
  - reflexivity.
  - reflexivity.
  - reflexivity.
  - vm_compute. discriminate.
Defined.

(** C6, the claim as stated fails: with a buffer of 8 bytes and 4 raw bytes
    read, the samples of raw bytes 2 and 3 are stored at offsets 4 to 7, in
    the second half of the buffer. *)
Lemma AU_read_ulaw_output_reaches_second_half :
  let r := AU.AU_read_log false AU.ulaw_sample_full in
  let half := Z.to_nat (AU.buffer_size AU.ulaw_sample_full / 2) in
  r.1.1 = 8
  ∧ half = 4%nat
  ∧ AU.stores_below half r.2 = false
  ∧ AU.buffer r.1.2 = AU.ulaw_expand false [1; 2; 3; 4]
  ∧ drop half (AU.buffer r.1.2) = AU.ulaw_expand false [3; 4].
Proof. vm_compute. repeat split. Qed.

Lemma AU_read_ulaw_expansion_witness :
  let s := AU.ulaw_sample_full in
  let l := [1; 2; 3; 4] in
  let half := AU.buffer_size s / 2 in
  let n := length l in
  let raw_buffer := write_at (AU.buffer s) (Z.to_nat half) l in
  let out := AU.buffer (AU.AU_read false s).2 in
  AU.AU_request s
    = (Z.min half (AU.remaining (AU.decoder_private s)), half)
  ∧ Z.of_nat n ≤ half
  ∧ (AU.AU_read false s).1 = 2 * Z.of_nat n
  ∧ out = AU.ulaw_expand false l ++ drop (2 * n) raw_buffer
  ∧ ∀ i b, l !! i = Some b →
      AU.ulaw_to_linear !! Z.to_nat b = Some (AU.ulaw_lookup b)
      ∧ -32768 ≤ AU.ulaw_lookup b ≤ 32767
      ∧ take 2 (drop (2 * i) out) = AU.Sint16_bytes false (AU.ulaw_lookup b).
Proof.
  apply (AU_read_ulaw_expansion false AU.ulaw_sample_full [1; 2; 3; 4]
           (mkMem [1; 2; 3; 4] 4 4 false)).
  - unfold AU.wf_sample. vm_compute. repeat split; discriminate.
  - reflexivity.
  - reflexivity.
Defined.

Lemma MP3_read_frames_and_bytes_witness :
  let s := (MP3.MP3_open true (MP3.toy_sample 2 16) None).2 in
  let ch := channels (MP3.actual s) in
  let asked := MP3.buffer_size s / ch / 4 in
  let got :=
    (MP3.drmp3_read_pcm_frames_f32 (MP3.decoder_private s) asked).1.1 in
  MP3.MP3_frames_to_read s = asked
  ∧ (MP3.MP3_read s).1 = got * ch * 4
  ∧ MP3.flags (MP3.MP3_read s).2
    = (if got <? asked
       then Z.lor (MP3.flags s) SOUND_SAMPLEFLAG_EOF else MP3.flags s)
  ∧ (has_flag (MP3.flags s) SOUND_SAMPLEFLAG_EOF = false →
     (has_flag (MP3.flags (MP3.MP3_read s).2) SOUND_SAMPLEFLAG_EOF = true
      ↔ got < asked)).
Proof.
  apply (MP3_read_frames_and_bytes
           (MP3.MP3_open true (MP3.toy_sample 2 16) None).2).
  - vm_compute. split; [reflexivity|discriminate].
  - vm_compute. split; [discriminate|reflexivity].
Defined.

Lemma mp3_read_accumulates_witness :
  ∃ r,
    MP3.mp3_read (MP3.toy_stream 2) 10 = Some r
    ∧ MP3.bridge_reads (MP3.toy_stream 2) 10 (MP3.stored r) (MP3.calls r)
                       (MP3.stream_after r)
    ∧ MP3.bridge_calls 10 (MP3.calls r)
    ∧ MP3.retval r = MP3.total_delivered (MP3.calls r)
    ∧ MP3.retval r = Z.of_nat (length (MP3.stored r))
    ∧ MP3.retval r ≤ 10
    ∧ (MP3.retval r = 10
       ∨ ∃ c, last (MP3.calls r) = Some c ∧ MP3.delivered c = 0).
Proof.
  apply (mp3_read_accumulates (MP3.toy_stream 2) 10).
  vm_compute. split; [discriminate|reflexivity].
Defined.

Lemma AU_read_error_count_exceeds_capacity_witness :
  (AU.AU_read false AU.broken_sample).1 = UINT32_MAX
  ∧ AU.buffer_size AU.broken_sample < (AU.AU_read false AU.broken_sample).1
  ∧ has_flag (AU.flags (AU.AU_read false AU.broken_sample).2)
             SOUND_SAMPLEFLAG_ERROR = true.
Proof.
  apply (AU_read_error_count_exceeds_capacity false AU.broken_sample
           (mkMem [1; 2; 3; 4] 0 4 true)).
  - vm_compute. split; discriminate.
  - reflexivity.
Defined.

(** C10, the claim as stated fails: with a buffer of 8 bytes and [n = 2]
    raw bytes, the loop loads offsets 4 and 5; offset [n + 0 = 2] is never
    loaded, so the store to offset 0 does not come after a load of it. *)
Lemma ulaw_source_not_at_offset_n :
  let r := AU.AU_read_log false AU.ulaw_sample_short in
  let n := 2%nat in
  r.1.1 = 2 * Z.of_nat n
  ∧ r.2 = [AU.LoadByte 4; AU.StoreByte 0; AU.StoreByte 1;
           AU.LoadByte 5; AU.StoreByte 2; AU.StoreByte 3]
  ∧ AU.only_after (AU.LoadByte (n + 0)) (AU.StoreByte (2 * 0)) r.2 = false.
Proof. vm_compute. repeat split. Qed.

Lemma ulaw_in_place_expansion_refines_copy_witness :
  let buffer := [0; 0; 0; 0; 10; 20; 0; 0] in
  let raw := [10; 20] in
  let half := 4%nat in
  let n := length raw in
  let run := AU.ulaw_loop false n 0 half buffer [] in
  run.1 = AU.ulaw_expand false raw ++ drop (2 * n) buffer
  ∧ run.2 = AU.ulaw_accesses half 0 n
  ∧ ∀ i, (i < n)%nat →
      AU.only_after (AU.LoadByte (half + i)) (AU.StoreByte (2 * i)) run.2 = true
      ∧ AU.only_after (AU.LoadByte (half + i)) (AU.StoreByte (2 * i + 1)) run.2 = true.
Proof.
  apply (ulaw_in_place_expansion_refines_copy false
           [0; 0; 0; 0; 10; 20; 0; 0] [10; 20] 4).
  - simpl. lia.
  - simpl. lia.
  - reflexivity.
Defined.

(** * More of [AU_open] *)

Lemma be32_be32_bytes v : 0 ≤ v < 2 ^ 32 → be32 (be32_bytes v) = v.
Proof.
  intros Hv. unfold be32, be32_bytes. cbn [lookup_total list_lookup_total].
  change (2 ^ 32) with 4294967296 in Hv. Z.div_mod_to_equations. lia.
Qed.

Lemma le32_le32_bytes v : 0 ≤ v < 2 ^ 32 → le32 (le32_bytes v) = v.
Proof.
  intros Hv. unfold le32, le32_bytes. cbn [lookup_total list_lookup_total].
  change (2 ^ 32) with 4294967296 in Hv. Z.div_mod_to_equations. lia.
Qed.

Lemma AU_format_Some enc fmt :
  AU_format enc = Some fmt →
  (enc = 1 ∧ fmt = AUDIO_S16SYS) ∨ (enc = 2 ∧ fmt = AUDIO_S8)
  ∨ (enc = 3 ∧ fmt = AUDIO_S16MSB).
Proof.
  unfold AU_format, AU.AU_ENC_ULAW_8, AU.AU_ENC_LINEAR_8, AU.AU_ENC_LINEAR_16.
  destruct (Z.eqb_spec enc 1); [intros [= <-]; auto|].
  destruct (Z.eqb_spec enc 2); [intros [= <-]; auto|].
  destruct (Z.eqb_spec enc 3); [intros [= <-]; auto|discriminate].
Qed.

Section AU_open_facts.

Context {R : Type} {RW : RWops R}.

(** X1.  When the first read delivers fewer than 24 bytes, or fails,
    [AU_open] gives up with the bad-header error whatever the extension
    hint is: a short read of the header is not retried and the headerless
    fallback is not tried. *)
Theorem AU_open_short_header (sample : AU.Sound_Sample R) dec ext res rw1 :
  SDL_RWread (AU.rw sample) AU.HDR_SIZE = (res, rw1) →
  rw_count res < 24 →
  AU.AU_open (Some dec) sample ext
  = (0, Some "No .au file (bad header)"%string,
     AU.set_rw (AU.set_dec sample dec) rw1).
Proof.
  intros Hread Hshort. unfold AU.AU_open.
  cbn [AU.rw AU.set_dec]. rewrite Hread.
  destruct (Z.ltb_spec (rw_count res) AU.HDR_SIZE) as [_|Hge];
    [reflexivity|].
  unfold AU.HDR_SIZE in Hge. lia.
Qed.

(** X2.  A header with the magic and a supported encoding is decoded field
    by field: [AU_open] succeeds, the rate and data size are the big-endian
    numbers of the header, the channel count is the low eight bits of the
    header's number (the field is a [Uint8]: 256 channels read as 0), the
    format is the one of the encoding, the flags are cleared, and the stream
    has had the header bytes beyond the 24th read off one at a time. *)
Theorem AU_open_valid_header
    (sample : AU.Sound_Sample R) dec ext h fmt rw1 :
  SDL_RWread (AU.rw sample) AU.HDR_SIZE = (RWdata (au_hdr_bytes h), rw1) →
  magic h = AU.AU_MAGIC →
  0 ≤ hdr_size h < 2 ^ 32 →
  0 ≤ data_size h < 2 ^ 32 →
  0 ≤ sample_rate h < 2 ^ 32 →
  0 ≤ hdr_channels h < 2 ^ 32 →
  AU_format (hdr_encoding h) = Some fmt →
  AU.AU_open (Some dec) sample ext
  = (1, None,
     AU.mkSample SOUND_SAMPLEFLAG_NONE
       (mkAudioInfo fmt (to_Uint8 (hdr_channels h)) (sample_rate h))
       (AU.skip_header (to_Sint32 (hdr_size h)) rw1)
       (AU.buffer sample) (AU.buffer_size sample)
       (AU.mkAudec (data_size h) (hdr_encoding h))).
Proof.
  intros Hread Hmagic Hhs Hds Hsr Hch Hfmt.
  assert (Henc : 0 ≤ hdr_encoding h < 2 ^ 32
                 ∧ to_Sint32 (hdr_encoding h) = hdr_encoding h).
  { destruct (AU_format_Some _ _ Hfmt) as [[-> _]|[[-> _]|[-> _]]];
      split; try reflexivity; lia. }
  destruct Henc as [Hencr Henc].
  unfold AU.AU_open. cbn [AU.rw AU.set_dec]. rewrite Hread.
  cbn [rw_count rw_bytes].
  change (Z.of_nat (length (au_hdr_bytes h)) <? AU.HDR_SIZE) with false.
  cbv iota.
  change (take 4 (au_hdr_bytes h)) with (le32_bytes (magic h)).
  change (take 4 (drop 4 (au_hdr_bytes h))) with (be32_bytes (hdr_size h)).
  change (take 4 (drop 8 (au_hdr_bytes h))) with (be32_bytes (data_size h)).
  change (take 4 (drop 12 (au_hdr_bytes h)))
    with (be32_bytes (hdr_encoding h)).
  change (take 4 (drop 16 (au_hdr_bytes h)))
    with (be32_bytes (sample_rate h)).
  change (take 4 (drop 20 (au_hdr_bytes h)))
    with (be32_bytes (hdr_channels h)).
  rewrite le32_le32_bytes by (rewrite Hmagic; vm_compute; split; congruence).
  rewrite !be32_be32_bytes by assumption.
  rewrite Hmagic, Z.eqb_refl, Henc.
  fold (AU_format (hdr_encoding h)). rewrite Hfmt. reflexivity.
Qed.

(** X3.  A header with the magic and an encoding other than 1, 2 and 3 is
    refused with the unsupported-encoding error, whatever the extension hint
    is; the flags and the format of the sample stay as they were. *)
Theorem AU_open_unsupported_encoding
    (sample : AU.Sound_Sample R) dec ext h rw1 :
  SDL_RWread (AU.rw sample) AU.HDR_SIZE = (RWdata (au_hdr_bytes h), rw1) →
  magic h = AU.AU_MAGIC →
  0 ≤ hdr_encoding h < 2 ^ 32 →
  hdr_encoding h ≠ 1 → hdr_encoding h ≠ 2 → hdr_encoding h ≠ 3 →
  let opened := AU.AU_open (Some dec) sample ext in
  opened.1 = (0, Some "Unsupported .au encoding"%string)
  ∧ AU.flags opened.2 = AU.flags sample
  ∧ AU.actual opened.2 = AU.actual sample.
Proof.
  intros Hread Hmagic Henc H1 H2 H3. cbv zeta.
  unfold AU.AU_open. cbn [AU.rw AU.set_dec]. rewrite Hread.
  cbn [rw_count rw_bytes].
  change (Z.of_nat (length (au_hdr_bytes h)) <? AU.HDR_SIZE) with false.
  cbv iota.
  change (take 4 (au_hdr_bytes h)) with (le32_bytes (magic h)).
  change (take 4 (drop 12 (au_hdr_bytes h)))
    with (be32_bytes (hdr_encoding h)).
  rewrite le32_le32_bytes by (rewrite Hmagic; vm_compute; split; congruence).
  rewrite !be32_be32_bytes by assumption.
  rewrite Hmagic, Z.eqb_refl.
  assert (Hs : to_Sint32 (hdr_encoding h) ≠ 1
               ∧ to_Sint32 (hdr_encoding h) ≠ 2
               ∧ to_Sint32 (hdr_encoding h) ≠ 3).
  { unfold to_Sint32.
    change (2 ^ 32) with 4294967296 in *. change (2 ^ 31) with 2147483648.
    destruct (Z.lt_ge_cases (hdr_encoding h) 2147483648).
    - rewrite Z.mod_small by lia. lia.
    - replace (hdr_encoding h + 2147483648)
        with (hdr_encoding h - 2147483648 + 1 * 4294967296) by lia.
      rewrite Z.mod_add by lia. rewrite Z.mod_small by lia. lia. }
  destruct Hs as (Hs1 & Hs2 & Hs3).
  unfold AU.AU_ENC_ULAW_8, AU.AU_ENC_LINEAR_8, AU.AU_ENC_LINEAR_16.
  destruct (Z.eqb_spec (to_Sint32 (hdr_encoding h)) 1); [contradiction|].
  destruct (Z.eqb_spec (to_Sint32 (hdr_encoding h)) 2); [contradiction|].
  destruct (Z.eqb_spec (to_Sint32 (hdr_encoding h)) 3); [contradiction|].
  cbn. auto.
Qed.

(** X4.  A full 24 bytes without the magic and a hint that is "au" up to
    case open as headerless data: 8000 Hz, one channel, µ-law expanded to
    native 16-bit samples, [remaining] all ones, flags cleared.  The stream
    is asked to go back 24 bytes and the answer is ignored: the open
    succeeds whether or not the seek did. *)
Theorem AU_open_headerless (sample : AU.Sound_Sample R) dec ext hdr rw1 :
  SDL_RWread (AU.rw sample) AU.HDR_SIZE = (RWdata hdr, rw1) →
  length hdr = 24%nat →
  le32 (take 4 hdr) ≠ AU.AU_MAGIC →
  __Sound_strcasecmp ext (Some "au"%string) = 0 →
  AU.AU_open (Some dec) sample ext
  = (1, None,
     AU.mkSample SOUND_SAMPLEFLAG_NONE (mkAudioInfo AUDIO_S16SYS 1 8000)
       (SDL_RWseek rw1 (-24) SEEK_CUR).2
       (AU.buffer sample) (AU.buffer_size sample)
       (AU.mkAudec UINT32_MAX AU.AU_ENC_ULAW_8)).
Proof.
  intros Hread Hlen Hmagic Hext. unfold AU.AU_open.
  cbn [AU.rw AU.set_dec]. rewrite Hread. cbn [rw_count rw_bytes].
  rewrite Hlen.
  change (Z.of_nat 24 <? AU.HDR_SIZE) with false. cbv iota.
  destruct (Z.eqb_spec (le32 (take 4 hdr)) AU.AU_MAGIC) as [Heq|_];
    [contradiction|].
  rewrite Hext. change (0 =? 0) with true. cbv iota.
  change (- AU.HDR_SIZE) with (-24).
  destruct (SDL_RWseek rw1 (-24) SEEK_CUR) as [pos rw2]. reflexivity.
Qed.

(** X5.  Whatever the input, [AU_open] returns 1 with no error and the
    flags cleared, or 0 with an error and the flags and the format as they
    were; it never touches the scratch buffer, and when the allocation
    fails it does not touch the stream either. *)
Theorem AU_open_outcome (fresh : option AU.audec)
    (sample : AU.Sound_Sample R) ext :
  let opened := AU.AU_open fresh sample ext in
  ((opened.1 = (1, None) ∧ AU.flags opened.2 = SOUND_SAMPLEFLAG_NONE)
   ∨ (opened.1.1 = 0 ∧ opened.1.2 ≠ None
      ∧ AU.flags opened.2 = AU.flags sample
      ∧ AU.actual opened.2 = AU.actual sample))
  ∧ AU.buffer opened.2 = AU.buffer sample
  ∧ AU.buffer_size opened.2 = AU.buffer_size sample
  ∧ (fresh = None → opened.2 = sample).
Proof.
  cbv zeta. unfold AU.AU_open. destruct fresh as [dec|].
  2:{ cbn. split; [right|]; auto. }
  cbn [AU.rw AU.set_dec].
  destruct (SDL_RWread (AU.rw sample) AU.HDR_SIZE) as [res rw1].
  destruct (rw_count res <? AU.HDR_SIZE).
  { cbn. split; [right|]; repeat split; discriminate. }
  destruct (le32 (take 4 (rw_bytes res)) =? AU.AU_MAGIC).
  - destruct (to_Sint32 (be32 (take 4 (drop 12 (rw_bytes res))))
              =? AU.AU_ENC_ULAW_8);
      [cbn; split; [left|]; repeat split; discriminate|].
    destruct (to_Sint32 (be32 (take 4 (drop 12 (rw_bytes res))))
              =? AU.AU_ENC_LINEAR_8);
      [cbn; split; [left|]; repeat split; discriminate|].
    destruct (to_Sint32 (be32 (take 4 (drop 12 (rw_bytes res))))
              =? AU.AU_ENC_LINEAR_16);
      [cbn; split; [left|]; repeat split; discriminate|].
    cbn. split; [right|]; repeat split; discriminate.
  - destruct (__Sound_strcasecmp ext (Some "au"%string) =? 0).
    + destruct (SDL_RWseek rw1 (- AU.HDR_SIZE) SEEK_CUR) as [pos rw2].
      cbn. split; [left|]; repeat split; discriminate.
    + cbn. split; [left|]; repeat split; discriminate.
Qed.

(** X6.  On a stream that behaves as a sequential file, skipping the rest
    of a header of [hsize] bytes leaves the stream [hsize - 24] bytes
    further on, and where it was when [hsize] is 24 or less. *)
Theorem skip_header_position (rest : R → list Z) (hsize : Z) (rw : R) :
  sequential_rw rest →
  rest (AU.skip_header hsize rw)
  = drop (Z.to_nat (hsize - AU.HDR_SIZE)) (rest rw).
Proof.
  intros Hseq. unfold AU.skip_header.
  assert (Hone : ∀ rw0, rest (SDL_RWread rw0 1).2 = drop 1 (rest rw0)).
  { intros rw0.
    destruct (Hseq rw0 1) as (l & rw' & Hread & Hpre & Hrest & Hne).
    pose proof (SDL_RWread_bound _ _ _ _ Hread) as Hlen.
    rewrite Hread. cbn [snd]. rewrite Hrest.
    destruct (rest rw0) as [|x tl] eqn:Hr; [rewrite !drop_nil; reflexivity|].
    assert (l ≠ []) by (apply Hne; [lia|discriminate]).
    destruct l as [|y [|z l]]; [contradiction|reflexivity|].
    cbn [length] in Hlen. lia. }
  induction (Z.to_nat (hsize - AU.HDR_SIZE)) as [|k IH]; [reflexivity|].
  rewrite Nat.iter_succ. cbv beta. rewrite Hone, IH, drop_drop.
  f_equal. lia.
Qed.

End AU_open_facts.

(** * More of [AU_read] *)

Section AU_read_more.

Context {R : Type} {RW : RWops R}.
Variable big_endian : bool.

(** One call of [AU_read], field by field. *)
Lemma AU_read_step (s : AU.Sound_Sample R) :
  AU.wf_sample s →
  let req := (AU.AU_request s).1 in
  let res := (SDL_RWread (AU.rw s) req).1 in
  let n := Z.of_nat (length (AU.AU_raw s)) in
  let s' := (AU.AU_read big_endian s).2 in
  req = Z.min (AU.AU_cap s) (AU.remaining (AU.decoder_private s))
  ∧ AU.AU_raw s = rw_bytes res
  ∧ 0 ≤ n ≤ req
  ∧ AU.remaining (AU.decoder_private s')
    = AU.remaining (AU.decoder_private s) - n
  ∧ AU.encoding (AU.decoder_private s') = AU.encoding (AU.decoder_private s)
  ∧ AU.buffer_size s' = AU.buffer_size s
  ∧ AU.actual s' = AU.actual s
  ∧ AU.rw s' = (SDL_RWread (AU.rw s) req).2
  ∧ AU.flags s' = Z.lor (AU.flags s) (AU_outcome_flag req res)
  ∧ (res ≠ RWerror →
     (AU.AU_read big_endian s).1
     = if AU.encoding (AU.decoder_private s) =? AU.AU_ENC_ULAW_8
       then 2 * n else n).
Proof.
  intros Hwf. cbv zeta.
  pose proof (AU_cap_bounds s Hwf) as (Hcap0 & Hcap & Hoff0).
  pose proof Hwf as (Hsize & Hlen & Hrem).
  unfold AU.AU_read, AU.AU_raw.
  destruct (SDL_RWread (AU.rw s) (AU.AU_request s).1) as [[|l] rw'] eqn:Hread.
  - rewrite (AU_read_log_error big_endian s rw' Hread).
    rewrite (AU_request_eq s Hwf). cbn.
    repeat (split; [first [reflexivity|lia]|]). intros H. contradiction.
  - destruct (AU_read_log_data big_endian s l rw' Hwf Hread) as [Hn ->].
    rewrite (AU_request_eq s Hwf). cbn [fst snd rw_bytes AU_outcome_flag].
    destruct (Z.eqb_spec (Z.of_nat (length l)) 0) as [Hz|Hnz].
    + cbn. rewrite Hz.
      repeat (split; [first [reflexivity|lia]|]). intros _.
      destruct (_ =? _); lia.
    + cbv zeta.
      destruct (AU.encoding (AU.decoder_private s) =? AU.AU_ENC_ULAW_8);
        destruct (_ <? _); cbn; rewrite ?Z.lor_0_r;
        (repeat (split; [first [reflexivity|lia]|])); intros _; reflexivity.
Qed.

(** X7.  With an encoding other than µ-law the bytes pass through as they
    are: the stream is asked for the smaller of the buffer size and
    [remaining], what it delivers is stored at the start of the buffer with
    the bytes behind it untouched, and the count returned is the number of
    bytes delivered. *)
Theorem AU_read_linear (s : AU.Sound_Sample R) l rw' :
  AU.wf_sample s →
  AU.encoding (AU.decoder_private s) ≠ AU.AU_ENC_ULAW_8 →
  SDL_RWread (AU.rw s) (AU.AU_request s).1 = (RWdata l, rw') →
  AU.AU_request s
  = (Z.min (AU.buffer_size s) (AU.remaining (AU.decoder_private s)), 0)
  ∧ (AU.AU_read big_endian s).1 = Z.of_nat (length l)
  ∧ AU.buffer (AU.AU_read big_endian s).2 = l ++ drop (length l) (AU.buffer s)
  ∧ AU.rw (AU.AU_read big_endian s).2 = rw'.
Proof.
  intros Hwf Henc Hread.
  assert (Henc' : (AU.encoding (AU.decoder_private s) =? AU.AU_ENC_ULAW_8)
                  = false) by (apply Z.eqb_neq, Henc).
  assert (AU.AU_cap s = AU.buffer_size s ∧ AU.AU_offset s = 0) as [Hc Ho].
  { unfold AU.AU_cap, AU.AU_offset. rewrite Henc'. auto. }
  unfold AU.AU_read.
  destruct (AU_read_log_data big_endian s l rw' Hwf Hread) as [Hn ->].
  rewrite (AU_request_eq s Hwf), Hc, Ho. split; [reflexivity|].
  destruct (Z.eqb_spec (Z.of_nat (length l)) 0) as [Hz|Hnz].
  - destruct l; [|discriminate]. cbn. auto.
  - cbv zeta. rewrite Henc'. destruct (_ <? _); cbn; auto.
Qed.

(** X8.  One call of [AU_read] adds exactly one flag, or none, to the
    flags of the sample: ERROR when the stream read fails, END_OF_STREAM
    when it delivers nothing, the short-read flag when it delivers some
    bytes but fewer than asked for, and nothing when it delivers all that
    was asked for. *)
Theorem AU_read_flag_added (s : AU.Sound_Sample R) :
  AU.wf_sample s →
  let req := (AU.AU_request s).1 in
  AU.flags (AU.AU_read big_endian s).2
  = Z.lor (AU.flags s)
          (AU_outcome_flag req (SDL_RWread (AU.rw s) req).1).
Proof.
  intros Hwf. cbv zeta.
  pose proof (AU_read_step s Hwf) as H. cbv zeta in H.
  destruct H as (_ & _ & _ & _ & _ & _ & _ & _ & Hflags & _). exact Hflags.
Qed.

(** X9.  [AU_read] never changes the output format, the size of the
    scratch buffer or the encoding of the sample, whatever the stream
    does. *)
Theorem AU_read_keeps_format (s : AU.Sound_Sample R) :
  AU.actual (AU.AU_read big_endian s).2 = AU.actual s
  ∧ AU.buffer_size (AU.AU_read big_endian s).2 = AU.buffer_size s
  ∧ AU.encoding (AU.decoder_private (AU.AU_read big_endian s).2)
    = AU.encoding (AU.decoder_private s).
Proof.
  unfold AU.AU_read, AU.AU_read_log.
  destruct (AU.AU_request s) as [maxlen buf].
  destruct (SDL_RWread (AU.rw s) maxlen) as [res rw1].
  destruct (rw_count res =? 0); [cbn; auto|].
  destruct (rw_count res =? -1); [cbn; auto|].
  cbn [AU.encoding].
  destruct (AU.encoding (AU.decoder_private s) =? AU.AU_ENC_ULAW_8).
  - destruct (AU.ulaw_loop _ _ _ _ _ _) as [buffer' log].
    destruct (_ <? _); cbn; auto.
  - destruct (_ <? _); cbn; auto.
Qed.

(** X10.  Over any number of calls of [AU_read], [remaining] is what it
    was at the start less the raw bytes the stream delivered in all, so the
    decoder never takes more from the stream than [remaining] allowed at
    the start; and the scratch buffer keeps its length. *)
Theorem AU_reads_conservation (s : AU.Sound_Sample R) (k : nat) :
  AU.wf_sample s →
  let sk := AU.AU_reads big_endian k s in
  AU.remaining (AU.decoder_private sk)
  = AU.remaining (AU.decoder_private s) - AU_consumed big_endian k s
  ∧ 0 ≤ AU_consumed big_endian k s ≤ AU.remaining (AU.decoder_private s)
  ∧ AU_consumed big_endian k s = Z.of_nat (length (AU_raws big_endian k s))
  ∧ length (AU.buffer sk) = length (AU.buffer s).
Proof.
  cbv zeta. revert s. induction k as [|k IH]; intros s Hwf.
  - cbn. destruct Hwf as (_ & _ & Hrem). repeat split; lia.
  - cbn [AU.AU_reads AU_consumed AU_raws].
    pose proof (AU_read_step s Hwf) as H. cbv zeta in H.
    destruct H as (_ & _ & Hn & Hrem' & _ & Hsize' & _).
    pose proof (AU_read_wf big_endian s Hwf) as Hwf'.
    destruct (IH _ Hwf') as (IH1 & IH2 & IH3 & IH4).
    rewrite Hrem' in IH1, IH2. rewrite length_app.
    destruct Hwf as (_ & Hlen & _). destruct Hwf' as (_ & Hlen' & _).
    split; [lia|]. split; [lia|]. split; [lia|]. lia.
Qed.

(** X11.  Once [remaining] is 0 the decoder asks the stream for no more
    bytes: unless the stream read fails, [AU_read] returns 0, sets
    END_OF_STREAM and leaves the buffer and [remaining] as they are. *)
Theorem AU_read_exhausted (s : AU.Sound_Sample R) :
  AU.wf_sample s →
  AU.remaining (AU.decoder_private s) = 0 →
  (SDL_RWread (AU.rw s) 0).1 ≠ RWerror →
  (AU.AU_request s).1 = 0
  ∧ (AU.AU_read big_endian s).1 = 0
  ∧ has_flag (AU.flags (AU.AU_read big_endian s).2) SOUND_SAMPLEFLAG_EOF
    = true
  ∧ AU.buffer (AU.AU_read big_endian s).2 = AU.buffer s
  ∧ AU.remaining (AU.decoder_private (AU.AU_read big_endian s).2) = 0.
Proof.
  intros Hwf Hzero Hok.
  pose proof (AU_cap_bounds s Hwf) as (Hcap0 & _ & _).
  assert (Hreq : (AU.AU_request s).1 = 0).
  { rewrite (AU_request_eq s Hwf). cbn [fst]. lia. }
  split; [exact Hreq|]. unfold AU.AU_read.
  destruct (SDL_RWread (AU.rw s) 0) as [[|l] rw'] eqn:Hread;
    [contradiction Hok; reflexivity|]. clear Hok.
  rewrite <- Hreq in Hread.
  destruct (AU_read_log_data big_endian s l rw' Hwf Hread) as [Hn ->].
  assert (l = []) as -> by (destruct l; [reflexivity|cbn [length] in Hn; lia]).
  change (Z.of_nat (length (@nil Z)) =? 0) with true. cbv iota.
  cbn [fst snd AU.flags AU.set_flags AU.set_rw AU.set_buffer AU.buffer
       AU.decoder_private].
  rewrite write_at_nil.
  rewrite has_flag_lor_self by (vm_compute; discriminate). auto.
Qed.

End AU_read_more.

(** * Reading a file to its end *)

Lemma file_sequential_rw : sequential_rw file_rest.
Proof.
  intros f n. cbn [SDL_RWread file_RWops]. unfold file_read.
  set (k := (Z.to_nat n `min` S (f_chunk f))%nat).
  exists (take k (file_rest f)), (mkFile (drop (length (take k (file_rest f)))
                                          (f_rest f)) (f_chunk f)).
  split; [reflexivity|]. split.
  - rewrite length_take.
    destruct (Nat.le_gt_cases k (length (file_rest f))).
    + f_equal. lia.
    + rewrite !take_ge by lia. reflexivity.
  - split.
    + unfold file_rest at 1. cbn [f_rest]. apply fmap_drop.
    + intros Hn Hrest. destruct (file_rest f) as [|x tl]; [contradiction|].
      assert (k ≠ 0)%nat by lia. destruct k; [contradiction|discriminate].
Qed.

Section AU_sequential.

Context {R : Type} {RW : RWops R}.
Variable big_endian : bool.
Variable rest : R → list Z.

Lemma AU_read_seq_step (s : AU.Sound_Sample R) :
  sequential_rw rest →
  AU_complete_on rest s →
  let l := AU.AU_raw s in
  let n := Z.of_nat (length l) in
  let s' := (AU.AU_read big_endian s).2 in
  AU_complete_on rest s'
  ∧ l = take (length l) (rest (AU.rw s))
  ∧ rest (AU.rw s') = drop (length l) (rest (AU.rw s))
  ∧ 0 ≤ n
  ∧ AU.remaining (AU.decoder_private s')
    = AU.remaining (AU.decoder_private s) - n
  ∧ (0 < AU.remaining (AU.decoder_private s) → 0 < n)
  ∧ (AU.AU_read big_endian s).1
    = (if AU.encoding (AU.decoder_private s) =? AU.AU_ENC_ULAW_8
       then 2 * n else n)
  ∧ has_flag (AU.flags s') SOUND_SAMPLEFLAG_EOF
    = has_flag (AU.flags s) SOUND_SAMPLEFLAG_EOF || (n =? 0).
Proof.
  intros Hseq (Hwf & Hcap & Hdata). cbv zeta.
  pose proof (AU_read_step big_endian s Hwf) as H. cbv zeta in H.
  destruct H as (Hreq & Hraw & Hn & Hrem' & Henc' & Hsize' & _ & Hrw'
                 & Hflags & Hret).
  destruct (Hseq (AU.rw s) (AU.AU_request s).1)
    as (l & rw' & Hread & Hpre & Hrest & Hne).
  rewrite Hread in Hraw, Hrw', Hflags, Hret. cbn [fst snd rw_bytes] in *.
  rewrite Hraw in *. rewrite Hrw'.
  pose proof (AU_read_wf big_endian s Hwf) as Hwf'.
  destruct Hwf as (_ & _ & Hrem).
  assert (Hlen : (length l ≤ length (rest (AU.rw s)))%nat).
  { rewrite Hpre, length_take. lia. }
  split.
  { split; [exact Hwf'|]. split.
    - unfold AU.AU_cap in *. rewrite Henc', Hsize'. exact Hcap.
    - rewrite Hrem', Hrw', Hrest, length_drop. lia. }
  split; [exact Hpre|]. split; [exact Hrest|]. split; [lia|].
  split; [exact Hrem'|]. split.
  { intros Hpos.
    assert (l ≠ []).
    { apply Hne; [lia|]. intros Hnil. rewrite Hnil in Hdata.
      cbn [length] in Hdata. lia. }
    destruct l; [contradiction|cbn [length]; lia]. }
  split; [apply Hret; discriminate|].
  rewrite Hflags. unfold AU_outcome_flag.
  destruct (Z.eqb_spec (Z.of_nat (length l)) 0) as [Hz|Hnz].
  - rewrite has_flag_lor_self by (vm_compute; discriminate).
    rewrite orb_true_r. reflexivity.
  - rewrite orb_false_r. destruct (_ <? _).
    + apply has_flag_lor_other. reflexivity.
    + unfold SOUND_SAMPLEFLAG_NONE. rewrite Z.lor_0_r. reflexivity.
Qed.

Lemma AU_reads_seq (k : nat) :
  sequential_rw rest →
  ∀ s : AU.Sound_Sample R,
    AU_complete_on rest s →
    let sk := AU.AU_reads big_endian k s in
    let taken :=
      Z.to_nat (AU.remaining (AU.decoder_private s)
                - AU.remaining (AU.decoder_private sk)) in
    AU_complete_on rest sk
    ∧ 0 ≤ AU.remaining (AU.decoder_private sk)
      ≤ Z.max 0 (AU.remaining (AU.decoder_private s) - Z.of_nat k)
    ∧ AU_raws big_endian k s = take taken (rest (AU.rw s))
    ∧ rest (AU.rw sk) = drop taken (rest (AU.rw s)).
Proof.
  intros Hseq. induction k as [|k IH]; intros s Hc; cbv zeta.
  - cbn [AU.AU_reads AU_raws]. rewrite Z.sub_diag.
    change (Z.to_nat 0) with 0%nat. rewrite take_0, drop_0.
    pose proof Hc as ((_ & _ & Hrem) & _).
    split; [exact Hc|]. split; [lia|]. split; reflexivity.
  - cbn [AU.AU_reads AU_raws].
    pose proof (AU_read_seq_step s Hseq Hc) as H. cbv zeta in H.
    destruct H as (Hc' & Hpre & Hrest & Hn0 & Hrem' & Hprog & _ & _).
    specialize (IH _ Hc'). cbv zeta in IH.
    destruct IH as (Hck & Hbound & Hraws & Hrestk).
    pose proof Hc as ((_ & _ & Hrem) & _).
    pose proof Hc' as ((_ & _ & Hrem1) & _).
    rewrite Hrem' in Hbound, Hraws, Hrestk, Hrem1.
    set (n := length (AU.AU_raw s)) in *.
    set (rk := AU.remaining
                 (AU.decoder_private
                    (AU.AU_reads big_endian k (AU.AU_read big_endian s).2)))
      in *.
    set (r0 := AU.remaining (AU.decoder_private s)) in *.
    assert (Hsplit : Z.to_nat (r0 - rk)
                     = (n + Z.to_nat (r0 - Z.of_nat n - rk))%nat) by lia.
    split; [exact Hck|]. split; [lia|]. split.
    + rewrite Hraws, Hrest, Hsplit, <- take_take_drop, <- Hpre. reflexivity.
    + rewrite Hrestk, Hrest, drop_drop, Hsplit. reflexivity.
Qed.

(** X12.  When the stream behaves as a sequential file that holds at least
    the bytes [remaining] counts and the buffer is not too small to read
    into, every call of [AU_read] made while [remaining] is above zero
    delivers at least one byte and never sets END_OF_STREAM; the flag is set
    for the first time by a call that finds [remaining] at 0. *)
Theorem AU_read_progress_to_end (s : AU.Sound_Sample R) (k : nat) :
  sequential_rw rest →
  AU.wf_sample s →
  0 < AU.AU_cap s →
  AU.remaining (AU.decoder_private s) ≤ Z.of_nat (length (rest (AU.rw s))) →
  let sk := AU.AU_reads big_endian k s in
  let r := AU.AU_read big_endian sk in
  AU.remaining (AU.decoder_private sk)
  ≤ Z.max 0 (AU.remaining (AU.decoder_private s) - Z.of_nat k)
  ∧ (0 < AU.remaining (AU.decoder_private sk) →
     0 < r.1
     ∧ has_flag (AU.flags r.2) SOUND_SAMPLEFLAG_EOF
       = has_flag (AU.flags sk) SOUND_SAMPLEFLAG_EOF)
  ∧ (has_flag (AU.flags sk) SOUND_SAMPLEFLAG_EOF = false →
     has_flag (AU.flags r.2) SOUND_SAMPLEFLAG_EOF = true →
     AU.remaining (AU.decoder_private sk) = 0 ∧ r.1 = 0).
Proof.
  intros Hseq Hwf Hcap Hdata. cbv zeta.
  assert (Hc : AU_complete_on rest s) by (unfold AU_complete_on; auto).
  pose proof (AU_reads_seq k Hseq s Hc) as H. cbv zeta in H.
  destruct H as (Hck & Hbound & _ & _).
  pose proof (AU_read_seq_step _ Hseq Hck) as H. cbv zeta in H.
  destruct H as (_ & _ & _ & Hn0 & Hrem' & Hprog & Hret & Hflag).
  split; [lia|]. split.
  - intros Hpos. specialize (Hprog Hpos). split.
    + rewrite Hret. destruct (_ =? _); lia.
    + rewrite Hflag.
      destruct (Z.eqb_spec (Z.of_nat (length
                  (AU.AU_raw (AU.AU_reads big_endian k s)))) 0); [lia|].
      apply orb_false_r.
  - intros Hclear Hset. rewrite Hflag, Hclear in Hset. cbn [orb] in Hset.
    apply Z.eqb_eq in Hset.
    destruct (Z.lt_ge_cases 0 (AU.remaining (AU.decoder_private
                 (AU.AU_reads big_endian k s)))) as [Hpos|Hle].
    + specialize (Hprog Hpos). lia.
    + split; [lia|]. rewrite Hret, Hset. destruct (_ =? _); reflexivity.
Qed.

(** X13.  Under the same conditions the raw bytes the calls of [AU_read]
    take from the stream are the next bytes of the file, in order, and
    after as many calls as [remaining] counted bytes (or fewer) they are
    exactly the data the header declared: no byte of it is lost and none
    beyond it is read. *)
Theorem AU_reads_deliver_data (s : AU.Sound_Sample R) (k : nat) :
  sequential_rw rest →
  AU.wf_sample s →
  0 < AU.AU_cap s →
  AU.remaining (AU.decoder_private s) ≤ Z.of_nat (length (rest (AU.rw s))) →
  let sk := AU.AU_reads big_endian k s in
  let declared := AU.remaining (AU.decoder_private s) in
  let taken := Z.to_nat (declared - AU.remaining (AU.decoder_private sk)) in
  AU_raws big_endian k s = take taken (rest (AU.rw s))
  ∧ rest (AU.rw sk) = drop taken (rest (AU.rw s))
  ∧ (declared ≤ Z.of_nat k →
     AU.remaining (AU.decoder_private sk) = 0
     ∧ AU_raws big_endian k s = take (Z.to_nat declared) (rest (AU.rw s))).
Proof.
  intros Hseq Hwf Hcap Hdata. cbv zeta.
  assert (Hc : AU_complete_on rest s) by (unfold AU_complete_on; auto).
  pose proof (AU_reads_seq k Hseq s Hc) as H. cbv zeta in H.
  destruct H as (_ & Hbound & Hraws & Hrest).
  split; [exact Hraws|]. split; [exact Hrest|].
  intros Hk.
  assert (Hz : AU.remaining (AU.decoder_private (AU.AU_reads big_endian k s))
               = 0) by lia.
  split; [exact Hz|]. rewrite Hraws, Hz, Z.sub_0_r. reflexivity.
Qed.

End AU_sequential.

(** * The µ-law table *)

Lemma below_cases (P : Z → bool) (m : nat) :
  forallb (λ n, P (Z.of_nat n)) (seq 0 m) = true →
  ∀ b, 0 ≤ b < Z.of_nat m → P b = true.
Proof.
  intros Hall b Hb. rewrite forallb_forall in Hall.
  specialize (Hall (Z.to_nat b)). rewrite Z2Nat.id in Hall by lia.
  apply Hall, in_seq. lia.
Qed.

(** X14.  The table is odd in the top bit of the byte: a byte below 128
    gives a sample that is negative or zero, and the byte 128 above it gives
    the opposite sample.  Within each half the magnitude falls as the byte
    grows, from 32124 down to 0. *)
Theorem ulaw_table_symmetric (b : Z) :
  0 ≤ b < 128 →
  AU.ulaw_lookup (b + 128) = - AU.ulaw_lookup b
  ∧ -32124 ≤ AU.ulaw_lookup b ≤ 0
  ∧ (b < 127 → AU.ulaw_lookup b < AU.ulaw_lookup (b + 1))
  ∧ (b = 127 → AU.ulaw_lookup b = 0).
Proof.
  intros Hb.
  pose proof (below_cases
    (λ b, (AU.ulaw_lookup (b + 128) =? - AU.ulaw_lookup b)
          && (-32124 <=? AU.ulaw_lookup b) && (AU.ulaw_lookup b <=? 0)
          && ((127 <=? b) || (AU.ulaw_lookup b <? AU.ulaw_lookup (b + 1)))
          && ((b <? 127) || (AU.ulaw_lookup b =? 0)))
    128 ltac:(vm_compute; reflexivity) b Hb) as H.
  cbv beta in H.
  apply andb_true_iff in H as [H H5]. apply andb_true_iff in H as [H H4].
  apply andb_true_iff in H as [H H3]. apply andb_true_iff in H as [H1 H2].
  apply orb_true_iff in H4, H5.
  split; [lia|]. split; [lia|]. split; intros Hc.
  - destruct H4 as [H4|H4]; lia.
  - destruct H5 as [H5|H5]; lia.
Qed.

(** X15.  For every byte the table holds the G.711 expansion of it. *)
Theorem ulaw_table_is_mulaw (b : Z) :
  0 ≤ b < 256 → AU.ulaw_lookup b = mulaw_expand b.
Proof.
  intros Hb.
  pose proof (below_cases (λ b, AU.ulaw_lookup b =? mulaw_expand b) 256
                ltac:(vm_compute; reflexivity) b Hb) as H.
  cbv beta in H. lia.
Qed.

(** * More of the MP3 decoder *)

(** X16.  The two-step duration of [MP3_open] is the exact number of whole
    milliseconds, [frames * 1000 / rate] rounded down: splitting the
    division loses nothing, and the product [frames * 1000] that could
    overflow is never formed. *)
Theorem MP3_total_time_exact (frames rate : Z) :
  0 < frames < 2 ^ 64 →
  0 < rate < 2 ^ 32 →
  frames * 1000 / rate ≤ INT_MAX →
  MP3.MP3_total_time frames rate = frames * 1000 / rate.
Proof.
  intros Hf Hr Hfit. unfold INT_MAX in Hfit.
  assert (Hsplit : frames * 1000 / rate
                   = frames / rate * 1000 + frames mod rate * 1000 / rate).
  { rewrite (Z.div_mod frames rate) at 1 by lia.
    replace ((rate * (frames / rate) + frames mod rate) * 1000)
      with (frames / rate * 1000 * rate + frames mod rate * 1000) by lia.
    apply Z.div_add_l. lia. }
  unfold MP3.MP3_total_time.
  destruct (Z.eqb_spec frames 0) as [Hz|_]; [lia|].
  assert (0 ≤ frames / rate) by (apply Z.div_pos; lia).
  pose proof (Z.mod_pos_bound frames rate ltac:(lia)).
  assert (0 ≤ frames mod rate * 1000 / rate) by (apply Z.div_pos; lia).
  rewrite (to_Uint64_id (frames / rate * 1000)) by lia.
  rewrite (to_Sint32_id (frames / rate * 1000)) by lia.
  rewrite (to_Uint64_id (frames / rate * 1000)) by lia.
  rewrite (to_Uint64_id (frames mod rate * 1000)) by lia.
  rewrite to_Uint64_id by lia. rewrite to_Sint32_id by lia. lia.
Qed.

Section MP3_more.

Context {Strm D : Type} {DR : MP3.Drmp3 Strm D}.


(** X18.  When the channel count of the sample is the one of the
    decompressor, [MP3_read] stores what the decompressor decoded at the
    start of the scratch buffer and leaves the bytes behind it alone: the
    buffer keeps its length, and the count returned is the number of bytes
    stored. *)
Theorem MP3_read_buffer (s : MP3.Sound_Sample Strm D) :
  0 < channels (MP3.actual s) ≤ INT_MAX →
  Z.of_nat (length (MP3.buffer s)) = MP3.buffer_size s →
  MP3.buffer_size s < 2 ^ 32 →
  MP3.dr_channels (MP3.decoder_private s) = channels (MP3.actual s) →
  let decoded :=
    (MP3.drmp3_read_pcm_frames_f32 (MP3.decoder_private s)
       (MP3.MP3_frames_to_read s)).1.2 in
  MP3.buffer (MP3.MP3_read s).2
  = decoded ++ drop (length decoded) (MP3.buffer s)
  ∧ (MP3.MP3_read s).1 = Z.of_nat (length decoded)
  ∧ length (MP3.buffer (MP3.MP3_read s).2) = length (MP3.buffer s).
Proof.
  intros Hch Hlen Hsize Hdr. cbv zeta.
  assert (Hsize' : 0 ≤ MP3.buffer_size s < 2 ^ 32) by lia.
  destruct (MP3_read_eq s Hch Hsize') as (Hasked & Hgot & Hfit & Hret & _).
  rewrite Hret, Hasked. unfold MP3.MP3_read. rewrite Hasked.
  destruct (MP3.drmp3_read_pcm_frames_f32 (MP3.decoder_private s)
              (MP3.buffer_size s / channels (MP3.actual s) / 4))
    as [[rc out] dr'] eqn:Hread.
  cbn [fst snd] in *.
  pose proof (MP3.drmp3_read_bound _ _ _ _ _ Hread) as [_ Hout].
  rewrite Hdr in Hout.
  assert (Hbuf : write_at (MP3.buffer s) 0 out
                 = out ++ drop (length out) (MP3.buffer s)) by reflexivity.
  destruct (rc <? _); cbn [MP3.buffer MP3.set_flags MP3.set_dec MP3.set_buffer];
    rewrite Hbuf, length_app, length_drop; (split; [reflexivity|]);
    (split; [lia|nia]).
Qed.

End MP3_more.

Section Bridge_sequential.

Context {Strm : Type} {IO : MP3.IOStream Strm}.
Variable rest : Strm → list Z.

Lemma mp3_read_loop_seq fuel :
  sequential_io rest →
  ∀ (io : Strm) out n rv log,
    0 ≤ n → 0 ≤ rv → rv + n < 2 ^ 64 → (Z.to_nat n < fuel)%nat →
    ∃ r,
      MP3.mp3_read_loop fuel io out n rv log = Some r
      ∧ MP3.stored r = out ++ take (Z.to_nat n) (rest io)
      ∧ rest (MP3.stream_after r) = drop (Z.to_nat n) (rest io)
      ∧ MP3.retval r = rv + Z.min n (Z.of_nat (length (rest io))).
Proof.
  intros Hseq.
  induction fuel as [|fuel IH]; intros io out n rv log Hn Hrv Hsum Hfuel;
    [lia|].
  cbn [MP3.mp3_read_loop].
  destruct (Z.eqb_spec n 0) as [->|Hnz].
  { eexists. split; [reflexivity|]. cbn.
    rewrite app_nil_r. repeat split; lia. }
  destruct (Hseq io n) as (chunk & io' & Hread & Hpre & Hrest & Hne).
  pose proof (MP3.SDL_ReadIO_bound _ _ _ _ Hread) as Hbound.
  rewrite Hread.
  assert (Hle : (length chunk ≤ length (rest io))%nat).
  { rewrite Hpre, length_take. lia. }
  destruct (Z.eqb_spec (Z.of_nat (length chunk)) 0) as [Hz|Hrc].
  { eexists. split; [reflexivity|]. cbn [MP3.stored MP3.stream_after MP3.retval].
    assert (Hnil : rest io = []).
    { destruct (rest io) as [|x tl] eqn:Hr; [reflexivity|].
      assert (chunk ≠ []) by (apply Hne; [lia|discriminate]).
      destruct chunk; [contradiction|discriminate]. }
    rewrite Hrest, Hnil, take_nil, !drop_nil, app_nil_r. cbn [length].
    repeat split; lia. }
  unfold MP3.to_size_t. rewrite !to_Uint64_id by lia.
  destruct (IH io' (out ++ chunk) (n - Z.of_nat (length chunk))
              (rv + Z.of_nat (length chunk))
              (log ++ [MP3.mkCall n (Z.of_nat (length chunk))]))
    as (r & Hloop & Hstored & Hafter & Hret); try lia.
  exists r. split; [exact Hloop|].
  assert (Hsplit : Z.to_nat n
                   = (length chunk
                      + Z.to_nat (n - Z.of_nat (length chunk)))%nat) by lia.
  rewrite Hrest in Hstored, Hafter, Hret. rewrite length_drop in Hret.
  split.
  { rewrite Hstored, <- app_assoc. f_equal.
    rewrite Hsplit, <- take_take_drop, <- Hpre. reflexivity. }
  split.
  { rewrite Hafter, drop_drop, Hsplit. reflexivity. }
  lia.
Qed.

(** X19.  On a stream that behaves as a sequential file the bridge puts the
    short reads together again: a request of [n] bytes stores exactly the
    next [n] bytes of the file in order, or all that is left if that is
    less, returns how many they are, and leaves the stream right behind
    them. *)
Theorem mp3_read_reassembles (io : Strm) (n : Z) :
  sequential_io rest →
  0 ≤ n < 2 ^ 64 →
  ∃ r,
    MP3.mp3_read io n = Some r
    ∧ MP3.stored r = take (Z.to_nat n) (rest io)
    ∧ rest (MP3.stream_after r) = drop (Z.to_nat n) (rest io)
    ∧ MP3.retval r = Z.min n (Z.of_nat (length (rest io))).
Proof.
  intros Hseq Hn. unfold MP3.mp3_read.
  destruct (mp3_read_loop_seq (S (Z.to_nat n)) Hseq io [] n 0 [])
    as (r & Hloop & Hstored & Hafter & Hret); try lia.
  exists r. cbn [app] in Hstored. repeat split; first [assumption|lia].
Qed.

End Bridge_sequential.

(** * The further properties on concrete streams *)

Lemma file_sequential_io : sequential_io file_rest.
Proof.
  intros f n. destruct (file_sequential_rw f n)
    as (l & f' & Hread & Hpre & Hrest & Hne).
  exists l, f'. cbn [SDL_RWread file_RWops] in Hread.
  cbn [MP3.SDL_ReadIO file_IOStream].
  destruct (file_read f n) as [l0 f0]. injection Hread as -> ->. auto.
Qed.

Lemma AU_open_short_header_witness :
  AU.AU_open (Some (AU.mkAudec 0 0))
             (AU.closed_sample (replicate 10 0) 10 false 16)
             (Some "au"%string)
  = (0, Some "No .au file (bad header)"%string,
     AU.set_rw (AU.set_dec (AU.closed_sample (replicate 10 0) 10 false 16)
                           (AU.mkAudec 0 0))
               (mkMem (replicate 10 0) 10 10 false)).
Proof.
  apply (AU_open_short_header
           (AU.closed_sample (replicate 10 0) 10 false 16) (AU.mkAudec 0 0)
           (Some "au"%string) (RWdata (replicate 10 0))
           (mkMem (replicate 10 0) 10 10 false)).
  - reflexivity.
  - vm_compute. reflexivity.
Defined.

Lemma AU_open_valid_header_witness :
  AU.AU_open (Some (AU.mkAudec 0 0))
             (AU.closed_sample file_linear16 34 false 16) None
  = (1, None,
     AU.mkSample SOUND_SAMPLEFLAG_NONE
       (mkAudioInfo AUDIO_S16MSB (to_Uint8 (hdr_channels hdr_linear16))
                    (sample_rate hdr_linear16))
       (AU.skip_header (to_Sint32 (hdr_size hdr_linear16))
                       (mkMem file_linear16 24 34 false))
       (replicate 16 0) 16
       (AU.mkAudec (data_size hdr_linear16) (hdr_encoding hdr_linear16))).
Proof.
  apply (AU_open_valid_header
           (AU.closed_sample file_linear16 34 false 16) (AU.mkAudec 0 0) None
           hdr_linear16 AUDIO_S16MSB (mkMem file_linear16 24 34 false)).
  - reflexivity.
  - reflexivity.
  - vm_compute. split; [discriminate|reflexivity].
  - vm_compute. split; [discriminate|reflexivity].
  - vm_compute. split; [discriminate|reflexivity].
  - vm_compute. split; [discriminate|reflexivity].
  - reflexivity.
Defined.

Lemma AU_open_unsupported_encoding_witness :
  let opened :=
    AU.AU_open (Some (AU.mkAudec 0 0))
               (AU.closed_sample (au_hdr_bytes hdr_alaw) 24 false 16)
               (Some "au"%string) in
  opened.1 = (0, Some "Unsupported .au encoding"%string)
  ∧ AU.flags opened.2
    = AU.flags (AU.closed_sample (au_hdr_bytes hdr_alaw) 24 false 16)
  ∧ AU.actual opened.2
    = AU.actual (AU.closed_sample (au_hdr_bytes hdr_alaw) 24 false 16).
Proof.
  apply (AU_open_unsupported_encoding
           (AU.closed_sample (au_hdr_bytes hdr_alaw) 24 false 16)
           (AU.mkAudec 0 0) (Some "au"%string) hdr_alaw
           (mkMem (au_hdr_bytes hdr_alaw) 24 24 false)).
  - reflexivity.
  - reflexivity.
  - vm_compute. split; [discriminate|reflexivity].
  - vm_compute. discriminate.
  - vm_compute. discriminate.
  - vm_compute. discriminate.
Defined.

Lemma AU_open_headerless_witness :
  AU.AU_open (Some (AU.mkAudec 0 0)) (file_sample (replicate 30 7) 29 16)
             (Some "Au"%string)
  = (1, None,
     AU.mkSample SOUND_SAMPLEFLAG_NONE (mkAudioInfo AUDIO_S16SYS 1 8000)
       (SDL_RWseek (mkFile (replicate 6 7) 29) (-24) SEEK_CUR).2
       (replicate 16 0) 16
       (AU.mkAudec UINT32_MAX AU.AU_ENC_ULAW_8)).
Proof.
  apply (AU_open_headerless (file_sample (replicate 30 7) 29 16)
           (AU.mkAudec 0 0) (Some "Au"%string) (replicate 24 7)
           (mkFile (replicate 6 7) 29)).
  - reflexivity.
  - reflexivity.
  - vm_compute. discriminate.
  - reflexivity.
Defined.

Lemma skip_header_position_witness :
  file_rest (AU.skip_header 28 (mkFile [9; 9; 9; 9; 1; 2; 3] 2))
  = drop (Z.to_nat (28 - AU.HDR_SIZE)) (file_rest (mkFile [9; 9; 9; 9; 1; 2; 3] 2)).
Proof.
  apply (skip_header_position file_rest 28 (mkFile [9; 9; 9; 9; 1; 2; 3] 2)).
  exact file_sequential_rw.
Defined.

Lemma AU_read_linear_witness :
  let s := AU.truncated_sample in
  let l := [1; 2; 3; 4] in
  AU.AU_request s
  = (Z.min (AU.buffer_size s) (AU.remaining (AU.decoder_private s)), 0)
  ∧ (AU.AU_read false s).1 = Z.of_nat (length l)
  ∧ AU.buffer (AU.AU_read false s).2 = l ++ drop (length l) (AU.buffer s)
  ∧ AU.rw (AU.AU_read false s).2
    = mkMem (AU.au_header 10 2 ++ [1; 2; 3; 4]) 28 28 false.
Proof.
  apply (AU_read_linear false AU.truncated_sample [1; 2; 3; 4]
           (mkMem (AU.au_header 10 2 ++ [1; 2; 3; 4]) 28 28 false)).
  - unfold AU.wf_sample. vm_compute. repeat split; discriminate.
  - vm_compute. discriminate.
  - reflexivity.
Defined.

Lemma AU_read_flag_added_witness :
  let s := AU.truncated_sample in
  let req := (AU.AU_request s).1 in
  AU.flags (AU.AU_read false s).2
  = Z.lor (AU.flags s) (AU_outcome_flag req (SDL_RWread (AU.rw s) req).1).
Proof.
  apply (AU_read_flag_added false AU.truncated_sample).
  unfold AU.wf_sample. vm_compute. repeat split; discriminate.
Defined.

Lemma AU_reads_conservation_witness :
  let s := AU.truncated_sample in
  let sk := AU.AU_reads false 3 s in
  AU.remaining (AU.decoder_private sk)
  = AU.remaining (AU.decoder_private s) - AU_consumed false 3 s
  ∧ 0 ≤ AU_consumed false 3 s ≤ AU.remaining (AU.decoder_private s)
  ∧ AU_consumed false 3 s = Z.of_nat (length (AU_raws false 3 s))
  ∧ length (AU.buffer sk) = length (AU.buffer s).
Proof.
  apply (AU_reads_conservation false AU.truncated_sample 3).
  unfold AU.wf_sample. vm_compute. repeat split; discriminate.
Defined.

Lemma AU_read_exhausted_witness :
  let s := exhausted_sample in
  (AU.AU_request s).1 = 0
  ∧ (AU.AU_read false s).1 = 0
  ∧ has_flag (AU.flags (AU.AU_read false s).2) SOUND_SAMPLEFLAG_EOF = true
  ∧ AU.buffer (AU.AU_read false s).2 = AU.buffer s
  ∧ AU.remaining (AU.decoder_private (AU.AU_read false s).2) = 0.
Proof.
  apply (AU_read_exhausted false exhausted_sample).
  - unfold AU.wf_sample. vm_compute. repeat split; discriminate.
  - reflexivity.
  - vm_compute. discriminate.
Defined.

Lemma AU_read_progress_to_end_witness :
  let s := linear16_sample in
  let sk := AU.AU_reads false 2 s in
  let r := AU.AU_read false sk in
  AU.remaining (AU.decoder_private sk)
  ≤ Z.max 0 (AU.remaining (AU.decoder_private s) - Z.of_nat 2)
  ∧ (0 < AU.remaining (AU.decoder_private sk) →
     0 < r.1
     ∧ has_flag (AU.flags r.2) SOUND_SAMPLEFLAG_EOF
       = has_flag (AU.flags sk) SOUND_SAMPLEFLAG_EOF)
  ∧ (has_flag (AU.flags sk) SOUND_SAMPLEFLAG_EOF = false →
     has_flag (AU.flags r.2) SOUND_SAMPLEFLAG_EOF = true →
     AU.remaining (AU.decoder_private sk) = 0 ∧ r.1 = 0).
Proof.
  apply (AU_read_progress_to_end false file_rest linear16_sample 2).
  - exact file_sequential_rw.
  - unfold AU.wf_sample. vm_compute. repeat split; discriminate.
  - reflexivity.
  - vm_compute. discriminate.
Defined.

Lemma AU_reads_deliver_data_witness :
  let s := linear16_sample in
  let sk := AU.AU_reads false 6 s in
  let declared := AU.remaining (AU.decoder_private s) in
  let taken := Z.to_nat (declared - AU.remaining (AU.decoder_private sk)) in
  AU_raws false 6 s = take taken (file_rest (AU.rw s))
  ∧ file_rest (AU.rw sk) = drop taken (file_rest (AU.rw s))
  ∧ (declared ≤ Z.of_nat 6 →
     AU.remaining (AU.decoder_private sk) = 0
     ∧ AU_raws false 6 s = take (Z.to_nat declared) (file_rest (AU.rw s))).
Proof.
  apply (AU_reads_deliver_data false file_rest linear16_sample 6).
  - exact file_sequential_rw.
  - unfold AU.wf_sample. vm_compute. repeat split; discriminate.
  - reflexivity.
  - vm_compute. discriminate.
Defined.

Lemma ulaw_table_symmetric_witness :
  AU.ulaw_lookup (5 + 128) = - AU.ulaw_lookup 5
  ∧ -32124 ≤ AU.ulaw_lookup 5 ≤ 0
  ∧ (5 < 127 → AU.ulaw_lookup 5 < AU.ulaw_lookup (5 + 1))
  ∧ (5 = 127 → AU.ulaw_lookup 5 = 0).
Proof. apply (ulaw_table_symmetric 5). lia. Defined.

Lemma ulaw_table_is_mulaw_witness : AU.ulaw_lookup 200 = mulaw_expand 200.
Proof. apply (ulaw_table_is_mulaw 200). lia. Defined.

Lemma MP3_total_time_exact_witness :
  MP3.MP3_total_time 100000 44100 = 100000 * 1000 / 44100.
Proof.
  apply (MP3_total_time_exact 100000 44100).
  - lia.
  - lia.
  - vm_compute. discriminate.
Defined.

Lemma MP3_read_buffer_witness :
  let s := (MP3.MP3_open true (MP3.toy_sample 2 16) None).2 in
  let decoded :=
    (MP3.drmp3_read_pcm_frames_f32 (MP3.decoder_private s)
       (MP3.MP3_frames_to_read s)).1.2 in
  MP3.buffer (MP3.MP3_read s).2
  = decoded ++ drop (length decoded) (MP3.buffer s)
  ∧ (MP3.MP3_read s).1 = Z.of_nat (length decoded)
  ∧ length (MP3.buffer (MP3.MP3_read s).2) = length (MP3.buffer s).
Proof.
  apply (MP3_read_buffer (MP3.MP3_open true (MP3.toy_sample 2 16) None).2).
  - vm_compute. split; [reflexivity|discriminate].
  - reflexivity.
  - reflexivity.
  - reflexivity.
Defined.

Lemma mp3_read_reassembles_witness :
  ∃ r,
    MP3.mp3_read (mkFile [1; 2; 3; 4; 5; 6; 7] 2) 5 = Some r
    ∧ MP3.stored r = take (Z.to_nat 5) (file_rest (mkFile [1; 2; 3; 4; 5; 6; 7] 2))
    ∧ file_rest (MP3.stream_after r)
      = drop (Z.to_nat 5) (file_rest (mkFile [1; 2; 3; 4; 5; 6; 7] 2))
    ∧ MP3.retval r
      = Z.min 5 (Z.of_nat (length (file_rest (mkFile [1; 2; 3; 4; 5; 6; 7] 2)))).
Proof.
  apply (mp3_read_reassembles file_rest (mkFile [1; 2; 3; 4; 5; 6; 7] 2) 5).
  - exact file_sequential_io.
  - lia.
Defined.

(** A header that declares 256 channels opens with a channel count of 0. *)
Example AU_open_channels_256 :
  let h := mkHdr AU.AU_MAGIC 24 6 2 8000 256 in
  let opened :=
    AU.AU_open (Some (AU.mkAudec 0 0))
               (AU.closed_sample (au_hdr_bytes h) 24 false 16) None in
  opened.1 = (1, None)
  ∧ AU.actual opened.2 = mkAudioInfo AUDIO_S8 0 8000.
Proof. vm_compute. repeat split. Qed.

(** A stream the toy decompressor refuses is left ten bytes further on, where
    the probe stopped reading. *)
Example MP3_open_refused_stream_position :
  let opened :=
    MP3.MP3_open true
      (MP3.mkSample SOUND_SAMPLEFLAG_NONE (mkAudioInfo AUDIO_unset 0 0)
                    (mkMem (replicate 20 7) 0 4 false) [] 0 0
                    (MP3.mkToy 0 0 0 0))
      None in
  opened.1 = (0, Some "MP3: Not an MPEG-1 layer 1-3 stream."%string)
  ∧ m_pos (MP3.rw opened.2) = 10%nat.
Proof. vm_compute. repeat split. Qed.
